(** * The job-board filter engine of [src/App.js]

    A shallow embedding of the search/filter engine ([filteredJobs]) and of
    the selection helpers ([addFilter], [removeFilter], [clearFilters]) of
    the single-page job board, with the properties the specification states
    about them, followed by the code around the engine: the hook
    [useDebounced], [loadJobs], [companyJobCounts], the handlers of saved
    jobs and applications, [markNotificationRead], the skills of the profile
    form and the badges of a job card.

    Strings.  A JavaScript string is a sequence of UTF-16 code units.  This
    development restricts strings to code units U+0000..U+00FF (the Basic
    Latin and Latin-1 Supplement blocks), one [ascii] per code unit.  On that
    range [String.prototype.toLowerCase] acts code unit by code unit and
    [String.prototype.trim] removes the seven white-space code units listed
    in [isWhiteSpace].  Context-sensitive case mappings of other scripts are
    outside this model. *)

From Stdlib Require Import List Bool Arith NArith Lia Ascii String.
Import ListNotations.
Open Scope string_scope.

(** ** JavaScript string primitives used by the engine *)

Module JsString.

Definition inRange (lo hi n : N) : bool := ((lo <=? n) && (n <=? hi))%N.

(** Code units with a lower-case counterpart: A-Z, and U+00C0..U+00DE
    except the multiplication sign U+00D7. *)
Definition isUpperCase (c : ascii) : bool :=
  let n := N_of_ascii c in
  inRange 65 90 n || (inRange 192 222 n && negb (n =? 215)%N).

Definition toLowerCaseUnit (c : ascii) : ascii :=
  if isUpperCase c then ascii_of_N (N_of_ascii c + 32) else c.

(** [s.toLowerCase()] *)
Fixpoint toLowerCase (s : string) : string :=
  match s with
  | EmptyString => EmptyString
  | String c s' => String (toLowerCaseUnit c) (toLowerCase s')
  end.

(** White space and line terminators below U+0100: TAB, LF, VT, FF, CR,
    SPACE and NO-BREAK SPACE. *)
Definition isWhiteSpace (c : ascii) : bool :=
  let n := N_of_ascii c in
  inRange 9 13 n || (n =? 32)%N || (n =? 160)%N.

Definition isEmpty (s : string) : bool :=
  match s with EmptyString => true | String _ _ => false end.

Fixpoint trimStart (s : string) : string :=
  match s with
  | EmptyString => EmptyString
  | String c s' => if isWhiteSpace c then trimStart s' else s
  end.

Fixpoint trimEnd (s : string) : string :=
  match s with
  | EmptyString => EmptyString
  | String c s' =>
      let r := trimEnd s' in
      if isWhiteSpace c && isEmpty r then EmptyString else String c r
  end.

(** [s.trim()] *)
Definition trim (s : string) : string := trimEnd (trimStart s).

(** [s.includes(searchString)]: some position of [s] starts an occurrence
    of [searchString]. *)
Fixpoint includes (s searchString : string) : bool :=
  String.prefix searchString s
  || match s with
     | EmptyString => false
     | String _ s' => includes s' searchString
     end.

(** Two code units that are the same letter in possibly different case. *)
Definition caseVariantUnit (c1 c2 : ascii) : bool :=
  Ascii.eqb c1 c2
  || (isUpperCase c1 && (N_of_ascii c2 =? N_of_ascii c1 + 32)%N)
  || (isUpperCase c2 && (N_of_ascii c1 =? N_of_ascii c2 + 32)%N).

(** Two strings that differ only in letter case. *)
Fixpoint differOnlyInCase (s1 s2 : string) : bool :=
  match s1, s2 with
  | EmptyString, EmptyString => true
  | String c1 r1, String c2 r2 => caseVariantUnit c1 c2 && differOnlyInCase r1 r2
  | _, _ => false
  end.

(** A string made of white space only (the empty string included). *)
Fixpoint onlyWhiteSpace (s : string) : bool :=
  match s with
  | EmptyString => true
  | String c s' => isWhiteSpace c && onlyWhiteSpace s'
  end.

(** [t] occurs in [s] as a contiguous substring. *)
Definition isSubstringOf (t s : string) : Prop :=
  exists pre post, s = pre ++ t ++ post.

End JsString.

Import JsString.

(** ** Data model *)

(** The fields of a job record that the engine reads.  A field that the
    record does not carry ([undefined] in the source) is [None]; the engine
    reads none of the remaining fields (description, salary, ...). *)
Record Job : Type := mkJob {
  id : string;
  title : option string;
  company : option string;
  location : option string;
  type : option string;
  stage : option string;
  tags : option (list string)
}.

(** The same record with its [tags] field replaced. *)
Definition withTags (job : Job) (ts : option (list string)) : Job :=
  mkJob (id job) (title job) (company job) (location job) (type job)
        (stage job) ts.

(** The fallback job list of the source. *)
Definition MOCK_JOBS : list Job :=
  [ mkJob "job-1" (Some "Frontend Engineer") (Some "TechFlow AG")
          (Some "Zurich") (Some "Full-time") (Some "Seed")
          (Some ["React"; "TypeScript"]);
    mkJob "job-2" (Some "Product Designer") (Some "Designly")
          (Some "Remote") (Some "Part-time") (Some "Series A")
          (Some ["Figma"; "UX"]);
    mkJob "job-3" (Some "Machine Learning Intern") (Some "AiSwiss")
          (Some "Lausanne") (Some "Internship") (Some "Pre-seed")
          (Some ["AI/ML"; "Python"]) ].

(** ** The filter engine *)

(** [recv?.m(...)]: the call is skipped, and yields [undefined], when the
    receiver is missing. *)
Definition optChain {A B : Type} (recv : option A) (m : A -> B) : option B :=
  match recv with
  | Some a => Some (m a)
  | None => None
  end.

(** Truthiness of a value that is a boolean or [undefined]. *)
Definition truthy (v : option bool) : bool :=
  match v with
  | Some b => b
  | None => false
  end.

(** [v === f] for a string [f]. *)
Definition strictEq (v : option string) (f : string) : bool :=
  match v with
  | Some s => String.eqb s f
  | None => false
  end.

(** [v || []] for an array or [undefined] (every array is truthy). *)
Definition orEmptyArray (v : option (list string)) : list string :=
  match v with
  | Some l => l
  | None => []
  end.

(** [arr.includes(f)] on an array of strings. *)
Definition arrayIncludes (arr : list string) (f : string) : bool :=
  existsb (fun x => String.eqb x f) arr.

(** The value of [matchesSearch] for a job, as a boolean. *)
Definition matchesSearch (term : string) (job : Job) : bool :=
  isEmpty term
  || truthy (optChain (title job) (fun s => includes (toLowerCase s) term))
  || truthy (optChain (company job) (fun s => includes (toLowerCase s) term))
  || truthy (optChain (tags job)
                      (existsb (fun t => includes (toLowerCase t) term))).

(** The callback given to [selectedFilters.every]. *)
Definition matchesFilter (job : Job) (f : string) : bool :=
  strictEq (location job) f
  || strictEq (type job) f
  || arrayIncludes (orEmptyArray (tags job)) f
  || strictEq (stage job) f.

(** The callback given to [jobs.filter]. *)
Definition keepJob (term : string) (selectedFilters : list string)
    (job : Job) : bool :=
  if negb (matchesSearch term job) then false
  else if Nat.eqb (List.length selectedFilters) 0 then true
  else forallb (matchesFilter job) selectedFilters.

Definition filteredJobs (jobs : list Job) (debouncedSearch : string)
    (selectedFilters : list string) : list Job :=
  let term := toLowerCase (trim debouncedSearch) in
  filter (keepJob term selectedFilters) jobs.

(** ** The selection state and its operations *)

(** The state cells that feed the engine. *)
Record AppState : Type := mkState {
  jobs : list Job;
  searchTerm : string;
  debouncedSearch : string;
  selectedFilters : list string
}.

(** The state of the first render. *)
Definition initialState : AppState := mkState [] "" "" [].

Definition setSelectedFilters (fs : list string) (st : AppState) : AppState :=
  mkState (jobs st) (searchTerm st) (debouncedSearch st) fs.

Definition setSearchTerm (s : string) (st : AppState) : AppState :=
  mkState (jobs st) s (debouncedSearch st) (selectedFilters st).

Definition setJobs (js : list Job) (st : AppState) : AppState :=
  mkState js (searchTerm st) (debouncedSearch st) (selectedFilters st).

(** The timer of [useDebounced] fires: the raw term is committed. *)
Definition commitDebounced (st : AppState) : AppState :=
  mkState (jobs st) (searchTerm st) (searchTerm st) (selectedFilters st).

Definition addFilter (f : string) (st : AppState) : AppState :=
  if negb (arrayIncludes (selectedFilters st) f)
  then setSelectedFilters (selectedFilters st ++ [f]) st
  else st.

Definition removeFilter (f : string) (st : AppState) : AppState :=
  setSelectedFilters
    (filter (fun x => negb (String.eqb x f)) (selectedFilters st)) st.

(** [clearFilters] also starts [loadJobs]; its completion is the separate
    event [JobsLoaded] below. *)
Definition clearFilters (st : AppState) : AppState :=
  setSearchTerm "" (setSelectedFilters [] st).

(** What [loadJobs] stores once the request settles: the received list when
    it is a non-empty array, the fallback list otherwise. *)
Definition jobsLoaded (data : option (list Job)) (st : AppState) : AppState :=
  match data with
  | Some (j :: js) => setJobs (j :: js) st
  | _ => setJobs MOCK_JOBS st
  end.

Inductive Event : Type :=
| AddFilter (f : string)
| RemoveFilter (f : string)
| ClearFilters
| SearchInput (s : string)
| DebounceElapsed
| JobsLoaded (data : option (list Job)).

Definition step (st : AppState) (e : Event) : AppState :=
  match e with
  | AddFilter f => addFilter f st
  | RemoveFilter f => removeFilter f st
  | ClearFilters => clearFilters st
  | SearchInput s => setSearchTerm s st
  | DebounceElapsed => commitDebounced st
  | JobsLoaded data => jobsLoaded data st
  end.

(** States reachable from the first render by any sequence of events. *)
Inductive reachable : AppState -> Prop :=
| reachable_init : reachable initialState
| reachable_step st e : reachable st -> reachable (step st e).

(** The list shown to the user. *)
Definition visibleJobs (st : AppState) : list Job :=
  filteredJobs (jobs st) (debouncedSearch st) (selectedFilters st).

(** ** The engine under JavaScript's run-time checks

    Job records come from the network, so nothing but the program's own
    guards ([?.] and [|| []]) protects the engine from a missing field.  The
    evaluator below keeps the run-time checks: a method called on a value
    that does not have it throws [TypeError].  The search term and the
    selection are local state of the component and stay typed. *)

Module Dynamic.

Inductive prim : Type :=
| PUndefined
| PNull
| PBool (b : bool)
| PString (s : string).

(** A primitive, or an array of primitives. *)
Inductive value : Type :=
| VPrim (p : prim)
| VArray (elems : list prim).

Abbreviation VUndefined := (VPrim PUndefined).
Abbreviation VBool b := (VPrim (PBool b)).
Abbreviation VString s := (VPrim (PString s)).

(** An object: its own properties. *)
Definition object : Type := list (string * value).

(** [o.k]; a property the object does not have reads as [undefined]. *)
Fixpoint getProp (o : object) (k : string) : value :=
  match o with
  | [] => VUndefined
  | (k', v) :: o' => if String.eqb k' k then v else getProp o' k
  end.

Inductive error : Type := TypeError.

Inductive completion (A : Type) : Type :=
| Normal (a : A)
| Throw (e : error).
Arguments Normal {A} a.
Arguments Throw {A} e.

Definition bind {A B : Type} (c : completion A) (k : A -> completion B)
  : completion B :=
  match c with
  | Normal a => k a
  | Throw e => Throw e
  end.

Notation "x <- c ;; k" := (bind c (fun x => k))
  (at level 61, c at next level, right associativity).

Definition toBoolean (v : value) : bool :=
  match v with
  | VPrim PUndefined | VPrim PNull => false
  | VPrim (PBool b) => b
  | VPrim (PString s) => negb (isEmpty s)
  | VArray _ => true
  end.

Definition isNullish (v : value) : bool :=
  match v with
  | VPrim PUndefined | VPrim PNull => true
  | _ => false
  end.

(** [ToString] of an array element inside [join]. *)
Definition elementToString (p : prim) : string :=
  match p with
  | PUndefined | PNull => ""
  | PBool true => "true"
  | PBool false => "false"
  | PString s => s
  end.

Definition toStringValue (v : value) : string :=
  match v with
  | VPrim PUndefined => "undefined"
  | VPrim PNull => "null"
  | VPrim p => elementToString p
  | VArray elems => String.concat "," (map elementToString elems)
  end.

(** [SameValueZero] of an array element and a value. *)
Definition sameValueZero (p : prim) (v : value) : bool :=
  match p, v with
  | PUndefined, VPrim PUndefined => true
  | PNull, VPrim PNull => true
  | PBool a, VPrim (PBool b) => Bool.eqb a b
  | PString a, VPrim (PString b) => String.eqb a b
  | _, _ => false
  end.

(** [v === f] for a string [f]. *)
Definition strictEqString (v : value) (f : string) : bool :=
  match v with
  | VPrim (PString s) => String.eqb s f
  | _ => false
  end.

(** [recv.toLowerCase()] *)
Definition callToLowerCase (recv : value) : completion value :=
  match recv with
  | VPrim (PString s) => Normal (VString (toLowerCase s))
  | _ => Throw TypeError
  end.

(** [recv.includes(arg)], of strings and of arrays. *)
Definition callIncludes (recv arg : value) : completion value :=
  match recv with
  | VPrim (PString s) => Normal (VBool (includes s (toStringValue arg)))
  | VArray elems => Normal (VBool (existsb (fun p => sameValueZero p arg) elems))
  | _ => Throw TypeError
  end.

Fixpoint someLoop (cb : value -> completion value) (elems : list prim)
  : completion value :=
  match elems with
  | [] => Normal (VBool false)
  | p :: rest =>
      v <- cb (VPrim p) ;;
      if toBoolean v then Normal (VBool true) else someLoop cb rest
  end.

(** [recv.some(cb)] *)
Definition callSome (recv : value) (cb : value -> completion value)
  : completion value :=
  match recv with
  | VArray elems => someLoop cb elems
  | _ => Throw TypeError
  end.

(** [recv?.rest]: [rest] runs on a receiver that is neither [undefined]
    nor [null]. *)
Definition optionalChain (recv : value) (rest : value -> completion value)
  : completion value :=
  if isNullish recv then Normal VUndefined else rest recv.

(** [a || b], [b] evaluated only when [a] is falsy. *)
Definition orElse (a b : completion value) : completion value :=
  v <- a ;; if toBoolean v then Normal v else b.

(** [selectedFilters.every(cb)] *)
Fixpoint everyLoop (cb : string -> completion value) (fs : list string)
  : completion value :=
  match fs with
  | [] => Normal (VBool true)
  | f :: rest =>
      v <- cb f ;;
      if toBoolean v then everyLoop cb rest else Normal (VBool false)
  end.

(** [jobs.filter(cb)] *)
Fixpoint filterLoop (cb : object -> completion value) (os : list object)
  : completion (list object) :=
  match os with
  | [] => Normal []
  | o :: rest =>
      v <- cb o ;;
      kept <- filterLoop cb rest ;;
      Normal (if toBoolean v then o :: kept else kept)
  end.

Definition evalMatchesSearch (term : string) (job : object)
  : completion value :=
  orElse
    (orElse
       (orElse
          (Normal (VBool (isEmpty term)))
          (optionalChain (getProp job "title") (fun t =>
             l <- callToLowerCase t ;; callIncludes l (VString term))))
       (optionalChain (getProp job "company") (fun c =>
          l <- callToLowerCase c ;; callIncludes l (VString term))))
    (optionalChain (getProp job "tags") (fun ts =>
       callSome ts (fun t =>
         l <- callToLowerCase t ;; callIncludes l (VString term)))).

Definition evalMatchesFilter (job : object) (f : string)
  : completion value :=
  orElse
    (orElse
       (orElse
          (Normal (VBool (strictEqString (getProp job "location") f)))
          (Normal (VBool (strictEqString (getProp job "type") f))))
       (tagsOrEmpty <- orElse (Normal (getProp job "tags"))
                              (Normal (VArray [])) ;;
        callIncludes tagsOrEmpty (VString f)))
    (Normal (VBool (strictEqString (getProp job "stage") f))).

Definition evalKeepJob (term : string) (selectedFilters : list string)
    (job : object) : completion value :=
  matches <- evalMatchesSearch term job ;;
  if negb (toBoolean matches) then Normal (VBool false)
  else if Nat.eqb (List.length selectedFilters) 0 then Normal (VBool true)
  else everyLoop (evalMatchesFilter job) selectedFilters.

Definition evalFilteredJobs (jobs : list object) (debouncedSearch : string)
    (selectedFilters : list string) : completion (list object) :=
  let term := toLowerCase (trim debouncedSearch) in
  filterLoop (evalKeepJob term selectedFilters) jobs.

(** The object of a typed record: a missing field is a missing property. *)
Definition stringProp (k : string) (v : option string) : object :=
  match v with
  | Some s => [(k, VString s)]
  | None => []
  end.

Definition arrayProp (k : string) (v : option (list string)) : object :=
  match v with
  | Some l => [(k, VArray (map PString l))]
  | None => []
  end.

Definition toObject (job : Job) : object :=
  ([("id", VString (id job))]
     ++ stringProp "title" (title job)
     ++ stringProp "company" (company job)
     ++ stringProp "location" (location job)
     ++ stringProp "type" (type job)
     ++ stringProp "stage" (stage job)
     ++ arrayProp "tags" (tags job))%list.

(** What reading a field of [toObject job] gives. *)
Definition fieldValue (v : option string) : value :=
  match v with
  | Some s => VString s
  | None => VUndefined
  end.

Definition tagsValue (v : option (list string)) : value :=
  match v with
  | Some l => VArray (map PString l)
  | None => VUndefined
  end.

End Dynamic.

(** ** The specification's predicates *)

(** The search predicate as the specification words it: the trimmed term is
    empty, or the lower-cased title, the lower-cased company or some
    lower-cased tag contains the normalised (trimmed, lower-cased) term. *)
Definition SearchMatches (t : string) (job : Job) : Prop :=
  trim t = ""
  \/ (exists s, title job = Some s
                /\ isSubstringOf (toLowerCase (trim t)) (toLowerCase s))
  \/ (exists s, company job = Some s
                /\ isSubstringOf (toLowerCase (trim t)) (toLowerCase s))
  \/ (exists ts tag, tags job = Some ts /\ In tag ts
                     /\ isSubstringOf (toLowerCase (trim t)) (toLowerCase tag)).

(** One filter value matches a job: it equals the location, the type or the
    stage, or it is one of the tags. *)
Definition FilterValueMatches (job : Job) (f : string) : Prop :=
  location job = Some f
  \/ type job = Some f
  \/ (exists ts, tags job = Some ts /\ In f ts)
  \/ stage job = Some f.

(** [l1] is [l2] with some elements left out, the others in place. *)
Inductive Subsequence {A : Type} : list A -> list A -> Prop :=
| Subsequence_nil : Subsequence [] []
| Subsequence_keep x l1 l2 : Subsequence l1 l2 -> Subsequence (x :: l1) (x :: l2)
| Subsequence_drop x l1 l2 : Subsequence l1 l2 -> Subsequence l1 (x :: l2).

(** ** Runs of the selection state *)

(** The state after a sequence of events, the oldest first. *)
Definition run (st : AppState) (events : list Event) : AppState :=
  fold_left step events st.

(** ** The hook [useDebounced], with its timer

    One instance of the hook.  [value] and [delay] are the arguments of the
    latest render (the dependencies of the effect), [v] is the state cell
    the hook returns, and [timer] is the pending call [setV(s)] with the
    time left until it is due, if any.  Time is counted in milliseconds. *)

Module UseDebounced.

Record Hook : Type := mkHook {
  value : string;
  delay : nat;
  v : string;
  timer : option (string * nat)
}.

(** First render: [useState(value)], then the effect sets the timer. *)
Definition mount (value0 : string) (delay0 : nat) : Hook :=
  mkHook value0 delay0 value0 (Some (value0, delay0)).

(** A later render.  The effect runs again only when a dependency changed:
    its cleanup clears the pending timer and a new one is set. *)
Definition render (value' : string) (delay' : nat) (h : Hook) : Hook :=
  if String.eqb value' (value h) && Nat.eqb delay' (delay h) then h
  else mkHook value' delay' (v h) (Some (value', delay')).

(** [ms] milliseconds pass without a render: a timer that is due fires and
    stores its value. *)
Definition elapse (ms : nat) (h : Hook) : Hook :=
  match timer h with
  | Some (s, due) =>
      if Nat.leb due ms then mkHook (value h) (delay h) s None
      else mkHook (value h) (delay h) (v h) (Some (s, due - ms))
  | None => h
  end.

Inductive Action : Type :=
| Render (value' : string) (delay' : nat)
| Elapse (ms : nat).

Definition act (h : Hook) (a : Action) : Hook :=
  match a with
  | Render value' delay' => render value' delay' h
  | Elapse ms => elapse ms h
  end.

(** The states of an instance: mounted, then any renders and waits. *)
Inductive reachable : Hook -> Prop :=
| reachable_mount value0 delay0 : reachable (mount value0 delay0)
| reachable_act h a : reachable h -> reachable (act h a).

(** What holds of every state of the hook: a pending timer carries the
    current value and is due within the current delay; with no timer
    pending the returned value is the current one. *)
Definition settled_or_pending (h : Hook) : Prop :=
  match timer h with
  | Some (s, due) => s = value h /\ due <= delay h
  | None => v h = value h
  end.

(** A burst of inputs: each new value is rendered with the same delay, then
    [ms] milliseconds pass before the next one. *)
Fixpoint typeBurst (keys : list (string * nat)) (h : Hook) : Hook :=
  match keys with
  | [] => h
  | (s, ms) :: rest => typeBurst rest (elapse ms (render s (delay h) h))
  end.

(** Every input of the burst changes the value, and the pause after it is
    shorter than [d]. *)
Fixpoint changingWithin (d : nat) (prev : string) (keys : list (string * nat))
  : Prop :=
  match keys with
  | [] => True
  | (s, ms) :: rest => s <> prev /\ ms < d /\ changingWithin d s rest
  end.

(** The value of the last input of a burst ([prev] when it is empty). *)
Fixpoint lastValue (prev : string) (keys : list (string * nat)) : string :=
  match keys with
  | [] => prev
  | (s, _) :: rest => lastValue s rest
  end.

End UseDebounced.

(** ** Notifications *)

Module Notifications.

Record Notification : Type := mkNotification {
  id : nat;
  message : string;
  time : string;
  read : bool
}.

(** [{ ...n, read: true }] *)
Definition withRead (n : Notification) : Notification :=
  mkNotification (id n) (message n) (time n) true.

(** The updater [markNotificationRead id] gives to [setNotifications]. *)
Definition markNotificationRead (i : nat) (prev : list Notification)
  : list Notification :=
  map (fun n => if Nat.eqb (id n) i then withRead n else n) prev.

(** The two notifications [loadUserData] starts with. *)
Definition initialNotifications : list Notification :=
  [ mkNotification 1
      "New job matching your skills: Frontend Engineer at TechFlow AG"
      "2 hours ago" false;
    mkNotification 2 "Your application for Product Designer was viewed"
      "1 day ago" false ].

(** The updater of [loadUserData]: the list is seeded only when empty. *)
Definition seedNotifications (prev : list Notification) : list Notification :=
  if Nat.eqb (List.length prev) 0 then initialNotifications else prev.

End Notifications.

(** ** The job counts per company

    [companyJobCounts] is a plain object used as a map from company names to
    numbers.  A plain object inherits the properties of [Object.prototype],
    and the program reads it with [counts[k]], which sees them; the model
    keeps that.  Numbers are natural numbers (no list is long enough to
    leave the exact range of a JavaScript number). *)

Module CompanyCounts.

(** What [counts] holds under a key: a number, or the string that [+ 1]
    makes of a value that is no number (such a string is never empty). *)
Inductive cell : Type :=
| Num (n : nat)
| Text.

(** The own properties of [counts]. *)
Definition counts : Type := list (string * cell).

(** The property names of [Object.prototype]. *)
Definition objectPrototypeKeys : list string :=
  [ "constructor"; "hasOwnProperty"; "isPrototypeOf"; "propertyIsEnumerable";
    "toLocaleString"; "toString"; "valueOf"; "__proto__";
    "__defineGetter__"; "__defineSetter__"; "__lookupGetter__";
    "__lookupSetter__" ].

Definition inherited (k : string) : bool :=
  existsb (String.eqb k) objectPrototypeKeys.

(** The property key [j.company] is converted to. *)
Definition propertyKey (c : option string) : string :=
  match c with
  | Some s => s
  | None => "undefined"
  end.

Fixpoint getOwn (o : counts) (k : string) : option cell :=
  match o with
  | [] => None
  | (k', c) :: o' => if String.eqb k' k then Some c else getOwn o' k
  end.

(** The result of [counts[k]]: an own property, a property of
    [Object.prototype] (a function, or for [__proto__] the prototype
    object: truthy and no number), or [undefined]. *)
Inductive lookup : Type :=
| Own (c : cell)
| Inherited
| Missing.

Definition get (o : counts) (k : string) : lookup :=
  match getOwn o k with
  | Some c => Own c
  | None => if inherited k then Inherited else Missing
  end.

(** [(x || 0) + 1] *)
Definition increment (x : lookup) : cell :=
  match x with
  | Own (Num n) => Num (n + 1)
  | Own Text => Text
  | Inherited => Text
  | Missing => Num 1
  end.

Fixpoint setOwn (o : counts) (k : string) (c : cell) : counts :=
  match o with
  | [] => [(k, c)]
  | (k', c') :: o' =>
      if String.eqb k' k then (k', c) :: o' else (k', c') :: setOwn o' k c
  end.

(** [counts[k] = c], for a [c] that is a number or a string: the setter of
    [__proto__] ignores such a value, any other key becomes or stays an own
    property. *)
Definition set (o : counts) (k : string) (c : cell) : counts :=
  if String.eqb k "__proto__" then o else setOwn o k c.

(** One turn of the loop. *)
Definition countJob (o : counts) (j : Job) : counts :=
  let k := propertyKey (company j) in
  set o k (increment (get o k)).

Definition companyJobCounts (jobs : list Job) : counts :=
  fold_left countJob jobs [].

(** What [companyJobCounts[name] || 0] evaluates to. *)
Inductive shown : Type :=
| ShownNumber (n : nat)
| ShownText
| ShownInherited.

Definition shownCount (o : counts) (name : string) : shown :=
  match get o name with
  | Own (Num n) => ShownNumber n
  | Own Text => ShownText
  | Inherited => ShownInherited
  | Missing => ShownNumber 0
  end.

(** The number of jobs whose company converts to the key [name]. *)
Definition jobsOfCompany (jobs : list Job) (name : string) : nat :=
  List.length (filter (fun j => String.eqb (propertyKey (company j)) name) jobs).

(** [counts] holds the number [n] under the key [name]; no own property
    stands for zero. *)
Definition numberAt (o : counts) (name : string) (n : nat) : Prop :=
  match n with
  | 0 => getOwn o name = None
  | S _ => getOwn o name = Some (Num n)
  end.

End CompanyCounts.

(** ** Saved jobs and applications

    The part of the component state that the handlers of saved jobs and
    applications read and write, with the two [localStorage] entries they
    mirror it in.  A handler is run to its end before the next one starts.
    The [loading] flag, the alerts and the signed-in user's record are left
    out.  A [localStorage] entry holds the value whose JSON text the program
    stored ([None]: no entry). *)

Module UserData.

Record Application : Type := mkApplication {
  id : string;
  jobId : string;
  status : string;
  appliedAt : string
}.

Record State : Type := mkUserData {
  isLoggedIn : bool;
  savedJobs : list string;
  applications : list Application;
  notifications : list Notifications.Notification;
  showLoginModal : bool;
  storedSavedJobs : option (list string);
  storedApplications : option (list Application)
}.

Definition hasApplied (st : State) (j : string) : bool :=
  existsb (fun a => String.eqb (jobId a) j) (applications st).

Definition isSaved (st : State) (j : string) : bool :=
  arrayIncludes (savedJobs st) j.

Definition setShowLoginModal (b : bool) (st : State) : State :=
  mkUserData (isLoggedIn st) (savedJobs st) (applications st)
    (notifications st) b (storedSavedJobs st) (storedApplications st).

(** [setSavedJobs(l)] followed by
    [localStorage.setItem("savedJobs", JSON.stringify(l))]. *)
Definition storeSavedJobs (l : list string) (st : State) : State :=
  mkUserData (isLoggedIn st) l (applications st) (notifications st)
    (showLoginModal st) (Some l) (storedApplications st).

(** [setApplications(l)] followed by
    [localStorage.setItem("applications", JSON.stringify(l))]. *)
Definition storeApplications (l : list Application) (st : State) : State :=
  mkUserData (isLoggedIn st) (savedJobs st) l (notifications st)
    (showLoginModal st) (storedSavedJobs st) (Some l).

(** [JSON.parse(localStorage.getItem(key) || "[]")] *)
Definition readStored {A : Type} (entry : option (list A)) : list A :=
  match entry with
  | Some l => l
  | None => []
  end.

(** [loadUserData].  [savedJobsData] are the [jobId]s of the saved jobs the
    server answered with, [appsData] its applications; [None] stands for a
    failed request or an answer that is no array. *)
Definition loadUserData (savedJobsData : option (list string))
    (appsData : option (list Application)) (st : State) : State :=
  mkUserData (isLoggedIn st)
    (match savedJobsData with
     | Some ids => ids
     | None => readStored (storedSavedJobs st)
     end)
    (match appsData with
     | Some apps => apps
     | None => readStored (storedApplications st)
     end)
    (Notifications.seedNotifications (notifications st))
    (showLoginModal st) (storedSavedJobs st) (storedApplications st).

(** [toggleSavedJob(jobId)]; [apiOk] tells whether the request to the
    server succeeded. *)
Definition toggleSavedJob (j : string) (apiOk : bool) (st : State) : State :=
  if negb (isLoggedIn st) then setShowLoginModal true st
  else if isSaved st j then
    if apiOk
    then storeSavedJobs (filter (fun i => negb (String.eqb i j)) (savedJobs st)) st
    else storeSavedJobs (filter (fun i => negb (String.eqb i j)) (savedJobs st)) st
  else
    if apiOk
    then storeSavedJobs (savedJobs st ++ [j]) st
    else storeSavedJobs (savedJobs st ++ [j]) st.

(** [handleApply(jobId)].  [newId] and [now] are the id and the time stamp
    made from the clock; the other arguments are the outcomes of the
    requests. *)
Definition handleApply (j newId now : string) (apiOk : bool)
    (savedJobsData : option (list string))
    (appsData : option (list Application)) (st : State) : State :=
  if negb (isLoggedIn st) then setShowLoginModal true st
  else if hasApplied st j then st
  else
    let st' :=
      if apiOk then st
      else storeApplications
             (applications st ++ [mkApplication newId j "pending" now]) st in
    loadUserData savedJobsData appsData st'.

(** [handleLogout]: the two entries [savedJobs] and [applications] of
    [localStorage] are not among those it removes. *)
Definition handleLogout (st : State) : State :=
  mkUserData false [] [] [] (showLoginModal st)
    (storedSavedJobs st) (storedApplications st).

End UserData.

(** The list of [SavedJobsView]. *)
Definition savedList (jobs : list Job) (st : UserData.State) : list Job :=
  filter (fun job => arrayIncludes (UserData.savedJobs st) (id job)) jobs.

(** ** The skills of the profile form *)

Module Profile.

Record ProfileEdit : Type := mkProfileEdit {
  name : string;
  email : string;
  university : string;
  major : string;
  skillsInput : string;
  skills : list string
}.

(** [set.add(x)], the set kept in insertion order. *)
Definition setAdd (elems : list string) (x : string) : list string :=
  if arrayIncludes elems x then elems else (elems ++ [x])%list.

(** [Array.from(new Set(xs))] *)
Definition arrayFromSet (xs : list string) : list string :=
  fold_left setAdd xs [].

(** The handler of the button "Add". *)
Definition addSkill (p : ProfileEdit) : ProfileEdit :=
  if isEmpty (skillsInput p) then p
  else mkProfileEdit (name p) (email p) (university p) (major p) ""
         (arrayFromSet (skills p ++ [skillsInput p])).

(** The handler of the button that removes the skill [s]. *)
Definition removeSkill (s : string) (p : ProfileEdit) : ProfileEdit :=
  mkProfileEdit (name p) (email p) (university p) (major p) (skillsInput p)
    (filter (fun x => negb (String.eqb x s)) (skills p)).

End Profile.

(** ** What a job card shows *)

(** [job.tags || ["React", "TypeScript"]] *)
Definition cardTags (job : Job) : list string :=
  match tags job with
  | Some l => l
  | None => ["React"; "TypeScript"]
  end.

(** [job.stage || "Seed"] *)
Definition cardStage (job : Job) : string :=
  match stage job with
  | Some s => if isEmpty s then "Seed" else s
  | None => "Seed"
  end.

(** * Properties *)

(** ** Worked examples *)

Example toLowerCase_REACT : toLowerCase "REACT" = "react".
Proof. reflexivity. Qed.

Example trim_sample : trim (String "009" " Front End  ") = "Front End".
Proof. reflexivity. Qed.

Example includes_sample :
  includes "frontend engineer" "end e" = true /\ includes "frontend" "zz" = false.
Proof. split; reflexivity. Qed.

Example scenario_front :
  filteredJobs (firstn 1 MOCK_JOBS) "front" [] = firstn 1 MOCK_JOBS.
Proof. reflexivity. Qed.

Example scenario_Remote : filteredJobs (firstn 1 MOCK_JOBS) "" ["Remote"] = [].
Proof. reflexivity. Qed.

Example scenario_React :
  filteredJobs (firstn 1 MOCK_JOBS) "" ["React"] = firstn 1 MOCK_JOBS.
Proof. reflexivity. Qed.

Example scenario_zz : filteredJobs MOCK_JOBS "zz" [] = [].
Proof. reflexivity. Qed.

(** A job whose [tags] are read without a guard fails; the guarded engine
    does not. *)
Example unguarded_tags_throw :
  Dynamic.callSome
    (Dynamic.getProp
       (Dynamic.toObject (mkJob "j" (Some "T") None None None None None)) "tags")
    (fun t => Dynamic.callToLowerCase t) = Dynamic.Throw Dynamic.TypeError.
Proof. reflexivity. Qed.


(** ** Strings *)

Section StringFacts.

Ltac each_code_unit c := destruct c as [[] [] [] [] [] [] [] []].

Lemma prefix_spec (t s : string) :
  String.prefix t s = true <-> exists post, s = t ++ post.
Proof.
  revert s; induction t as [|c t IH]; intros s; simpl.
  - destruct s; split; eauto.
  - destruct s as [|d s].
    + split; [discriminate | intros [post H]; discriminate].
    + simpl. destruct (Ascii.ascii_dec c d) as [->|Hne].
      * rewrite IH. split; intros [post H]; exists post.
        -- now rewrite H.
        -- now injection H.
      * split; [discriminate | intros [post H]; injection H; congruence].
Qed.

Lemma includes_spec (s t : string) :
  includes s t = true <-> isSubstringOf t s.
Proof.
  unfold isSubstringOf.
  induction s as [|c s IH]; cbn [includes].
  - rewrite orb_false_r, prefix_spec. split.
    + intros [post H]. now exists "", post.
    + intros [pre [post H]]. destruct pre; simpl in H.
      * eauto.
      * discriminate.
  - rewrite orb_true_iff, prefix_spec, IH. split.
    + intros [[post H] | [pre [post H]]].
      * now exists "", post.
      * exists (String c pre), post. simpl. now rewrite H.
    + intros [pre [post H]]. destruct pre as [|d pre]; simpl in H.
      * left; eauto.
      * right. injection H as _ H. eauto.
Qed.

Lemma isEmpty_spec (s : string) : isEmpty s = true <-> s = "".
Proof. destruct s; simpl; split; congruence. Qed.

Lemma isEmpty_toLowerCase (s : string) : isEmpty (toLowerCase s) = isEmpty s.
Proof. now destruct s. Qed.

Lemma isWhiteSpace_toLowerCaseUnit (c : ascii) :
  isWhiteSpace (toLowerCaseUnit c) = isWhiteSpace c.
Proof. each_code_unit c; reflexivity. Qed.

Lemma toLowerCaseUnit_idempotent (c : ascii) :
  toLowerCaseUnit (toLowerCaseUnit c) = toLowerCaseUnit c.
Proof. each_code_unit c; reflexivity. Qed.

Lemma toLowerCaseUnit_partner (c : ascii) :
  isUpperCase c = true ->
  toLowerCaseUnit (ascii_of_N (N_of_ascii c + 32)) = toLowerCaseUnit c.
Proof. each_code_unit c; intros H; solve [discriminate H | reflexivity]. Qed.

Lemma caseVariantUnit_toLowerCaseUnit (c1 c2 : ascii) :
  caseVariantUnit c1 c2 = true -> toLowerCaseUnit c1 = toLowerCaseUnit c2.
Proof.
  unfold caseVariantUnit.
  rewrite !orb_true_iff, !andb_true_iff, Ascii.eqb_eq, !N.eqb_eq.
  intros [[-> | [Hup Hcode]] | [Hup Hcode]]; [reflexivity | |].
  - rewrite <- (ascii_N_embedding c2), Hcode.
    symmetry; now apply toLowerCaseUnit_partner.
  - rewrite <- (ascii_N_embedding c1), Hcode.
    now apply toLowerCaseUnit_partner.
Qed.

Lemma differOnlyInCase_toLowerCase (s1 s2 : string) :
  differOnlyInCase s1 s2 = true -> toLowerCase s1 = toLowerCase s2.
Proof.
  revert s2; induction s1 as [|c1 s1 IH]; intros [|c2 s2]; simpl;
    try reflexivity; try discriminate.
  rewrite andb_true_iff. intros [Hc Hs].
  now rewrite (caseVariantUnit_toLowerCaseUnit _ _ Hc), (IH _ Hs).
Qed.

Lemma toLowerCase_trimStart (s : string) :
  toLowerCase (trimStart s) = trimStart (toLowerCase s).
Proof.
  induction s as [|c s IH]; simpl; [reflexivity|].
  rewrite isWhiteSpace_toLowerCaseUnit.
  now destruct (isWhiteSpace c).
Qed.

Lemma toLowerCase_trimEnd (s : string) :
  toLowerCase (trimEnd s) = trimEnd (toLowerCase s).
Proof.
  induction s as [|c s IH]; simpl; [reflexivity|].
  rewrite isWhiteSpace_toLowerCaseUnit, <- IH, isEmpty_toLowerCase.
  now destruct (isWhiteSpace c && isEmpty (trimEnd s)).
Qed.

Lemma toLowerCase_trim (s : string) :
  toLowerCase (trim s) = trim (toLowerCase s).
Proof.
  unfold trim. now rewrite toLowerCase_trimEnd, toLowerCase_trimStart.
Qed.

Lemma trimStart_onlyWhiteSpace (s : string) :
  onlyWhiteSpace s = true -> trimStart s = "".
Proof.
  induction s as [|c s IH]; simpl; [reflexivity|].
  rewrite andb_true_iff. intros [-> Hs]. auto.
Qed.

Lemma trim_onlyWhiteSpace (s : string) :
  onlyWhiteSpace s = true -> trim s = "".
Proof. intros H. unfold trim. now rewrite trimStart_onlyWhiteSpace. Qed.

(** The normalised term is empty exactly when the trimmed term is. *)
Lemma term_empty_iff (s : string) :
  toLowerCase (trim s) = "" <-> trim s = "".
Proof. rewrite <- !isEmpty_spec, isEmpty_toLowerCase. tauto. Qed.

End StringFacts.

(** ** The two predicates of the engine *)

Section Predicates.

Variable job : Job.

Lemma strictEq_spec (v : option string) (f : string) :
  strictEq v f = true <-> v = Some f.
Proof.
  destruct v as [s|]; simpl.
  - rewrite String.eqb_eq. split; congruence.
  - split; discriminate.
Qed.

Lemma arrayIncludes_spec (arr : list string) (f : string) :
  arrayIncludes arr f = true <-> In f arr.
Proof.
  unfold arrayIncludes. rewrite existsb_exists. split.
  - intros [x [Hin Heq]]. apply String.eqb_eq in Heq. now subst.
  - intros Hin. exists f. split; [assumption | apply String.eqb_refl].
Qed.

Lemma matchesFilter_spec (f : string) :
  matchesFilter job f = true <-> FilterValueMatches job f.
Proof.
  unfold matchesFilter, FilterValueMatches.
  rewrite !orb_true_iff, !strictEq_spec, arrayIncludes_spec.
  destruct (tags job) as [ts|]; simpl.
  - split.
    + intros [[[H|H]|H]|H]; eauto 6.
    + intros [H|[H|[[ts' [Hts Hin]]|H]]]; auto.
      injection Hts as <-. auto.
  - split.
    + intros [[[H|H]|[]]|H]; auto.
    + intros [H|[H|[[ts' [Hts _]]|H]]]; auto. discriminate.
Qed.

Lemma matchesSearch_spec (t : string) :
  matchesSearch (toLowerCase (trim t)) job = true <-> SearchMatches t job.
Proof.
  unfold matchesSearch, SearchMatches.
  rewrite !orb_true_iff, isEmpty_spec, term_empty_iff.
  set (term := toLowerCase (trim t)).
  assert (Htitle : truthy (optChain (title job)
                     (fun s => includes (toLowerCase s) term)) = true
                   <-> exists s, title job = Some s
                                 /\ isSubstringOf term (toLowerCase s)).
  { destruct (title job) as [s|]; simpl.
    - rewrite includes_spec. split; [eauto | intros [s' [[= <-] H]]; exact H].
    - split; [discriminate | intros [s' [[=] _]]]. }
  assert (Hcompany : truthy (optChain (company job)
                       (fun s => includes (toLowerCase s) term)) = true
                     <-> exists s, company job = Some s
                                   /\ isSubstringOf term (toLowerCase s)).
  { destruct (company job) as [s|]; simpl.
    - rewrite includes_spec. split; [eauto | intros [s' [[= <-] H]]; exact H].
    - split; [discriminate | intros [s' [[=] _]]]. }
  assert (Htags : truthy (optChain (tags job)
                    (existsb (fun tg => includes (toLowerCase tg) term))) = true
                  <-> exists ts tag, tags job = Some ts /\ In tag ts
                                     /\ isSubstringOf term (toLowerCase tag)).
  { destruct (tags job) as [ts|]; simpl.
    - rewrite existsb_exists. split.
      + intros [tag [Hin H]]. apply includes_spec in H. eauto.
      + intros [ts' [tag [[= <-] [Hin H]]]]. exists tag.
        split; [assumption | now apply includes_spec].
    - split; [discriminate | intros [ts' [tag [[=] _]]]]. }
  rewrite Htitle, Hcompany, Htags. tauto.
Qed.

(** The callback of [jobs.filter] is the conjunction of the two
    predicates: the early exits change nothing. *)
Lemma keepJob_spec (term : string) (F : list string) :
  keepJob term F job = matchesSearch term job && forallb (matchesFilter job) F.
Proof.
  unfold keepJob. destruct (matchesSearch term job); simpl; [|reflexivity].
  now destruct F.
Qed.

End Predicates.

Lemma filteredJobs_In (J : list Job) (t : string) (F : list string) (job : Job) :
  In job (filteredJobs J t F)
  <-> In job J /\ matchesSearch (toLowerCase (trim t)) job = true
      /\ forallb (matchesFilter job) F = true.
Proof.
  unfold filteredJobs. cbv zeta.
  now rewrite filter_In, keepJob_spec, andb_true_iff.
Qed.

(** C1: a job of the list is in the engine's output exactly when it matches
    the search term (the trimmed term is empty, or the lower-cased title,
    company or some tag contains the normalised term) and every selected
    filter value equals its location, type or stage or is one of its tags. *)
Theorem filteredJobs_visible_iff
    (J : list Job) (t : string) (F : list string) (job : Job) :
  In job (filteredJobs J t F)
  <-> In job J /\ SearchMatches t job /\ Forall (FilterValueMatches job) F.
Proof.
  rewrite filteredJobs_In, matchesSearch_spec, forallb_forall, Forall_forall.
  split; intros [HJ [Hs Hf]]; repeat split; auto;
    intros f Hin; apply matchesFilter_spec; auto.
Qed.

(** C2: with the empty search term and no filter the engine returns the job
    list itself. *)
Theorem filteredJobs_identity (J : list Job) : filteredJobs J "" [] = J.
Proof.
  unfold filteredJobs. cbv zeta.
  induction J as [|job J IH]; [reflexivity|].
  cbn [filter]. rewrite IH. reflexivity.
Qed.

(** ** Lists under [Array.prototype.filter] *)

Section ListFacts.

Context {A : Type}.
Variables p q : A -> bool.

Lemma filter_all_true (l : list A) :
  (forall x, In x l -> p x = true) -> filter p l = l.
Proof.
  induction l as [|a l IH]; intros H; [reflexivity|].
  cbn [filter]. rewrite (H a (or_introl eq_refl)), IH; [reflexivity|].
  intros x Hx. apply H. now right.
Qed.

Lemma filter_idempotent (l : list A) : filter p (filter p l) = filter p l.
Proof.
  apply filter_all_true. intros x Hx. now apply filter_In in Hx.
Qed.

Lemma filter_Subsequence (l : list A) : Subsequence (filter p l) l.
Proof.
  induction l as [|a l IH]; cbn [filter]; [constructor|].
  destruct (p a); now constructor.
Qed.

Lemma Subsequence_In (l1 l2 : list A) :
  Subsequence l1 l2 -> forall x, In x l1 -> In x l2.
Proof.
  induction 1 as [|a l1 l2 _ IH|a l1 l2 _ IH]; intros x Hx.
  - assumption.
  - destruct Hx as [<-|Hx]; [now left | right; auto].
  - right; auto.
Qed.

Lemma Subsequence_length (l1 l2 : list A) :
  Subsequence l1 l2 -> List.length l1 <= List.length l2.
Proof. induction 1; simpl; lia. Qed.

(** A filter with a stronger test keeps a subsequence of what the weaker
    test keeps. *)
Lemma filter_stronger_Subsequence (l : list A) :
  (forall x, p x = true -> q x = true) ->
  Subsequence (filter p l) (filter q l).
Proof.
  intros H. induction l as [|a l IH]; cbn [filter]; [constructor|].
  destruct (p a) eqn:Hp.
  - rewrite (H a Hp). now constructor.
  - destruct (q a); [now constructor | assumption].
Qed.

End ListFacts.

(** C3: the engine's output is a subsequence of the job list: every output
    element is an element of the list, and the surviving jobs keep their
    relative order (the output is the list with some elements left out). *)
Theorem filteredJobs_subsequence (J : list Job) (t : string) (F : list string) :
  Subsequence (filteredJobs J t F) J
  /\ (forall job, In job (filteredJobs J t F) -> In job J)
  /\ List.length (filteredJobs J t F) <= List.length J.
Proof.
  assert (H : Subsequence (filteredJobs J t F) J) by apply filter_Subsequence.
  split; [exact H|]. split.
  - now apply Subsequence_In.
  - now apply Subsequence_length.
Qed.

(** C4: filtering the engine's output again with the same term and the same
    filters changes nothing. *)
Theorem filteredJobs_idempotent (J : list Job) (t : string) (F : list string) :
  filteredJobs (filteredJobs J t F) t F = filteredJobs J t F.
Proof. apply filter_idempotent. Qed.

Lemma keepJob_more_filters (term : string) (F : list string) (x : string)
    (job : Job) :
  keepJob term (F ++ [x]) job = true -> keepJob term F job = true.
Proof.
  rewrite !keepJob_spec, forallb_app, !andb_true_iff. tauto.
Qed.

Lemma filteredJobs_more_filters (J : list Job) (t : string) (F : list string)
    (x : string) :
  Subsequence (filteredJobs J t (F ++ [x])) (filteredJobs J t F).
Proof.
  apply filter_stronger_Subsequence. intros job. apply keepJob_more_filters.
Qed.

(** C5: adding a filter value never makes the result longer, both for the
    selection with the value appended and for the selection [addFilter]
    produces (unchanged when the value is already selected). *)
Theorem filteredJobs_monotone (J : list Job) (t : string) (F : list string)
    (x : string) :
  List.length (filteredJobs J t (F ++ [x])) <= List.length (filteredJobs J t F)
  /\ List.length
       (filteredJobs J t (selectedFilters (addFilter x (mkState J t t F))))
     <= List.length (filteredJobs J t F).
Proof.
  assert (H : List.length (filteredJobs J t (F ++ [x]))
              <= List.length (filteredJobs J t F)).
  { apply Subsequence_length, filteredJobs_more_filters. }
  split; [exact H|].
  unfold addFilter. cbn [selectedFilters].
  destruct (negb (arrayIncludes F x)); cbn; [exact H | lia].
Qed.

Lemma term_differOnlyInCase (t1 t2 : string) :
  differOnlyInCase t1 t2 = true ->
  toLowerCase (trim t1) = toLowerCase (trim t2).
Proof.
  intros H. rewrite !toLowerCase_trim.
  now rewrite (differOnlyInCase_toLowerCase _ _ H).
Qed.

Lemma term_onlyWhiteSpace (t : string) :
  onlyWhiteSpace t = true -> toLowerCase (trim t) = toLowerCase (trim "").
Proof. intros H. now rewrite (trim_onlyWhiteSpace _ H). Qed.

(** C6: two search terms that differ only in letter case give the same
    result (in particular "REACT" and "react"), and a term made of white
    space only gives the result of the empty term. *)
Theorem filteredJobs_case_whitespace (J : list Job) (F : list string) :
  (forall t1 t2, differOnlyInCase t1 t2 = true ->
                 filteredJobs J t1 F = filteredJobs J t2 F)
  /\ filteredJobs J "REACT" [] = filteredJobs J "react" []
  /\ (forall t, onlyWhiteSpace t = true ->
                filteredJobs J t F = filteredJobs J "" F).
Proof.
  unfold filteredJobs. cbv zeta. repeat split.
  - intros t1 t2 H. now rewrite (term_differOnlyInCase _ _ H).
  - intros t H. now rewrite (term_onlyWhiteSpace _ H).
Qed.

Lemma filteredJobs_case_whitespace_witness :
  differOnlyInCase "ReAcT dev" "react DEV" = true
  /\ filteredJobs MOCK_JOBS "ReAcT dev" ["Zurich"]
     = filteredJobs MOCK_JOBS "react DEV" ["Zurich"]
  /\ onlyWhiteSpace (String "009" "  ") = true
  /\ filteredJobs MOCK_JOBS (String "009" "  ") ["Zurich"]
     = filteredJobs MOCK_JOBS "" ["Zurich"].
Proof.
  split; [reflexivity|]. split.
  - apply (proj1 (filteredJobs_case_whitespace MOCK_JOBS ["Zurich"])).
    reflexivity.
  - split; [reflexivity|].
    apply (proj2 (proj2 (filteredJobs_case_whitespace MOCK_JOBS ["Zurich"]))).
    reflexivity.
Defined.

(** ** The engine under run-time checks agrees with the typed engine *)

Section DynamicFacts.

Import Dynamic.

Ltac each_record job :=
  destruct job as [i [ti|] [co|] [lo|] [ty|] [sg|] [tg|]].

Lemma getProp_title (job : Job) :
  getProp (toObject job) "title" = fieldValue (title job).
Proof. each_record job; reflexivity. Qed.

Lemma getProp_company (job : Job) :
  getProp (toObject job) "company" = fieldValue (company job).
Proof. each_record job; reflexivity. Qed.

Lemma getProp_location (job : Job) :
  getProp (toObject job) "location" = fieldValue (location job).
Proof. each_record job; reflexivity. Qed.

Lemma getProp_type (job : Job) :
  getProp (toObject job) "type" = fieldValue (type job).
Proof. each_record job; reflexivity. Qed.

Lemma getProp_stage (job : Job) :
  getProp (toObject job) "stage" = fieldValue (stage job).
Proof. each_record job; reflexivity. Qed.

Lemma getProp_tags (job : Job) :
  getProp (toObject job) "tags" = tagsValue (tags job).
Proof. each_record job; reflexivity. Qed.

Lemma strictEqString_fieldValue (v : option string) (f : string) :
  strictEqString (fieldValue v) f = strictEq v f.
Proof. now destruct v. Qed.

(** [s?.toLowerCase().includes(term)] on a string field. *)
Lemma optionalChain_field (v : option string) (term : string) :
  exists r,
    optionalChain (fieldValue v) (fun s =>
      l <- callToLowerCase s ;; callIncludes l (VString term)) = Normal r
    /\ toBoolean r
       = truthy (optChain v (fun s => includes (toLowerCase s) term)).
Proof.
  destruct v as [s|]; cbn.
  - eexists; split; [reflexivity|]. reflexivity.
  - eexists; split; reflexivity.
Qed.

Lemma someLoop_tags (ts : list string) (term : string) :
  someLoop (fun t => l <- callToLowerCase t ;; callIncludes l (VString term))
           (map PString ts)
  = Normal (VBool (existsb (fun t => includes (toLowerCase t) term) ts)).
Proof.
  induction ts as [|t ts IH]; [reflexivity|].
  cbn. destruct (includes (toLowerCase t) term); [reflexivity|].
  exact IH.
Qed.

(** [tags?.some(...)] on the tags field. *)
Lemma optionalChain_tags (v : option (list string)) (term : string) :
  exists r,
    optionalChain (tagsValue v) (fun ts =>
      callSome ts (fun t =>
        l <- callToLowerCase t ;; callIncludes l (VString term))) = Normal r
    /\ toBoolean r
       = truthy (optChain v (existsb (fun t => includes (toLowerCase t) term))).
Proof.
  destruct v as [ts|]; cbn.
  - rewrite someLoop_tags. eexists; split; reflexivity.
  - eexists; split; reflexivity.
Qed.

Lemma orElse_Normal (a : value) (b : completion value) (r : value) (x y : bool) :
  toBoolean a = x -> b = Normal r -> toBoolean r = y ->
  exists r', orElse (Normal a) b = Normal r' /\ toBoolean r' = x || y.
Proof.
  intros Ha -> Hr. cbn. rewrite Ha. destruct x eqn:Hx.
  - exists a. now split.
  - exists r. now split.
Qed.

Lemma evalMatchesSearch_toObject (term : string) (job : Job) :
  exists r, evalMatchesSearch term (toObject job) = Normal r
            /\ toBoolean r = matchesSearch term job.
Proof.
  unfold evalMatchesSearch, matchesSearch.
  rewrite getProp_title, getProp_company, getProp_tags.
  destruct (optionalChain_field (title job) term) as [r1 [E1 B1]].
  destruct (optionalChain_field (company job) term) as [r2 [E2 B2]].
  destruct (optionalChain_tags (tags job) term) as [r3 [E3 B3]].
  destruct (orElse_Normal (VBool (isEmpty term)) _ r1 _ _ eq_refl E1 B1)
    as [a1 [Ea1 Ba1]].
  rewrite Ea1.
  destruct (orElse_Normal a1 _ r2 _ _ Ba1 E2 B2) as [a2 [Ea2 Ba2]].
  rewrite Ea2.
  destruct (orElse_Normal a2 _ r3 _ _ Ba2 E3 B3) as [a3 [Ea3 Ba3]].
  rewrite Ea3. now exists a3.
Qed.

Lemma sameValueZero_tags (ts : list string) (f : string) :
  existsb (fun p => sameValueZero p (VString f)) (map PString ts)
  = arrayIncludes ts f.
Proof.
  unfold arrayIncludes. induction ts as [|t ts IH]; [reflexivity|].
  cbn. now rewrite IH.
Qed.

(** [(tags || []).includes(f)] on the tags field. *)
Lemma tagsOrEmpty_includes (v : option (list string)) (f : string) :
  (tagsOrEmpty <- orElse (Normal (tagsValue v)) (Normal (VArray [])) ;;
   callIncludes tagsOrEmpty (VString f))
  = Normal (VBool (arrayIncludes (orEmptyArray v) f)).
Proof.
  destruct v as [ts|]; cbn; [|reflexivity].
  now rewrite sameValueZero_tags.
Qed.

Lemma evalMatchesFilter_toObject (job : Job) (f : string) :
  evalMatchesFilter (toObject job) f = Normal (VBool (matchesFilter job f)).
Proof.
  unfold evalMatchesFilter, matchesFilter.
  rewrite getProp_location, getProp_type, getProp_stage, getProp_tags.
  rewrite tagsOrEmpty_includes, !strictEqString_fieldValue.
  destruct (strictEq (location job) f), (strictEq (type job) f),
    (arrayIncludes (orEmptyArray (tags job)) f), (strictEq (stage job) f);
    reflexivity.
Qed.

Lemma everyLoop_toObject (job : Job) (F : list string) :
  everyLoop (evalMatchesFilter (toObject job)) F
  = Normal (VBool (forallb (matchesFilter job) F)).
Proof.
  induction F as [|f F IH]; [reflexivity|].
  cbn [everyLoop forallb]. rewrite evalMatchesFilter_toObject. cbn.
  destruct (matchesFilter job f); [exact IH | reflexivity].
Qed.

Lemma evalKeepJob_toObject (term : string) (F : list string) (job : Job) :
  evalKeepJob term F (toObject job) = Normal (VBool (keepJob term F job)).
Proof.
  unfold evalKeepJob, keepJob.
  destruct (evalMatchesSearch_toObject term job) as [r [-> <-]]. cbn.
  destruct (toBoolean r); cbn; [|reflexivity].
  destruct (Nat.eqb (List.length F) 0); [reflexivity|].
  apply everyLoop_toObject.
Qed.

Lemma filterLoop_toObject (term : string) (F : list string) (J : list Job) :
  filterLoop (evalKeepJob term F) (map toObject J)
  = Normal (map toObject (filter (keepJob term F) J)).
Proof.
  induction J as [|job J IH]; [reflexivity|].
  cbn [map filterLoop filter]. rewrite evalKeepJob_toObject, IH. cbn.
  now destruct (keepJob term F job).
Qed.

End DynamicFacts.

(** C7: evaluated with JavaScript's run-time checks on the objects of any job
    list, the engine completes normally, with the objects of the jobs the
    typed engine keeps (so also on the empty list); a job without [tags] is
    treated as the same job with an empty tag list by the search predicate,
    by the filter-value predicate and by the engine's callback. *)
Theorem filteredJobs_total (J : list Job) (t : string) (F : list string) :
  Dynamic.evalFilteredJobs (map Dynamic.toObject J) t F
  = Dynamic.Normal (map Dynamic.toObject (filteredJobs J t F))
  /\ Dynamic.evalFilteredJobs [] t F = Dynamic.Normal []
  /\ (forall job term f,
        matchesSearch term (withTags job None)
        = matchesSearch term (withTags job (Some []))
        /\ matchesFilter (withTags job None) f
           = matchesFilter (withTags job (Some [])) f
        /\ keepJob term F (withTags job None)
           = keepJob term F (withTags job (Some []))).
Proof.
  split; [apply filterLoop_toObject|].
  split; [reflexivity|].
  intros job term f. repeat split.
Qed.

(** ** The selection *)

Lemma NoDup_snoc (l : list string) (f : string) :
  NoDup l -> ~ In f l -> NoDup (l ++ [f]).
Proof.
  induction 1 as [|a l Ha Hl IH]; intros Hf; simpl.
  - constructor; [intros [] | constructor].
  - constructor.
    + rewrite in_app_iff. intros [H|[H|[]]]; [now apply Ha|].
      apply Hf. now left.
    + apply IH. intros H. apply Hf. now right.
Qed.

Lemma arrayIncludes_false (l : list string) (f : string) :
  arrayIncludes l f = false <-> ~ In f l.
Proof.
  rewrite <- arrayIncludes_spec. destruct (arrayIncludes l f); split;
    congruence.
Qed.

Lemma step_NoDup (st : AppState) (e : Event) :
  NoDup (selectedFilters st) -> NoDup (selectedFilters (step st e)).
Proof.
  intros H. destruct e as [f|f| | | |data]; cbn.
  - unfold addFilter. destruct (arrayIncludes (selectedFilters st) f) eqn:E;
      cbn; [assumption|].
    apply NoDup_snoc; [assumption | now apply arrayIncludes_false].
  - now apply NoDup_filter.
  - constructor.
  - assumption.
  - assumption.
  - destruct data as [[|j js]|]; assumption.
Qed.

Lemma addFilter_selected (f : string) (st : AppState) :
  In f (selectedFilters st) -> addFilter f st = st.
Proof.
  intros H. unfold addFilter.
  now rewrite (proj2 (arrayIncludes_spec (selectedFilters st) f) H).
Qed.

(** C8: in every state reachable from the first render (by [addFilter],
    [removeFilter], [clearFilters] and the other events) the selected filter
    values are pairwise distinct, and [addFilter f] leaves a state that
    already selects [f] unchanged. *)
Theorem selectedFilters_NoDup (st : AppState) :
  reachable st ->
  NoDup (selectedFilters st)
  /\ (forall f, In f (selectedFilters st) -> addFilter f st = st).
Proof.
  intros H. split; [|intros f; apply addFilter_selected].
  induction H as [|st e _ IH]; [constructor | now apply step_NoDup].
Qed.

Lemma selectedFilters_NoDup_witness :
  let st := step (step (step initialState (AddFilter "React"))
                       (AddFilter "Zurich"))
                 (AddFilter "React") in
  selectedFilters st = ["React"; "Zurich"]
  /\ NoDup (selectedFilters st)
  /\ addFilter "Zurich" st = st.
Proof.
  intros st.
  assert (H : reachable st) by (do 3 apply reachable_step; apply reachable_init).
  split; [reflexivity|].
  destruct (selectedFilters_NoDup st H) as [Hnd Hadd].
  split; [exact Hnd|].
  apply Hadd. right; left; reflexivity.
Defined.

(** C9: a filter value matches by exact, case-sensitive equality with the
    location, the type or the stage, or by exact membership in the tags: a
    job located in "Remote" is dropped by the filter "remote" and kept by
    the filter "Remote", while the search term "remote" would be compared in
    lower case. *)
Theorem filter_value_case_sensitive :
  (forall J job f,
      In job (filteredJobs J "" [f]) <-> In job J /\ FilterValueMatches job f)
  /\ exists J job,
       In job J /\ location job = Some "Remote"
       /\ ~ In job (filteredJobs J "" ["remote"])
       /\ In job (filteredJobs J "" ["Remote"])
       /\ matchesSearch (toLowerCase (trim "DESIGNER")) job = true.
Proof.
  split.
  - intros J job f. rewrite filteredJobs_In. cbn [forallb].
    rewrite andb_true_r, matchesFilter_spec.
    assert (matchesSearch (toLowerCase (trim "")) job = true) by reflexivity.
    tauto.
  - exists MOCK_JOBS, (nth 1 MOCK_JOBS (mkJob "" None None None None None None)).
    split; [right; left; reflexivity|].
    split; [reflexivity|].
    split; [intros []|].
    split; [left; reflexivity | reflexivity].
Qed.

(** C10: [clearFilters] empties the selection and resets the raw search term
    to the empty string. *)
Theorem clearFilters_resets (st : AppState) :
  selectedFilters (clearFilters st) = []
  /\ searchTerm (clearFilters st) = "".
Proof. split; reflexivity. Qed.

(** * Further properties of the code *)

(** ** The selection helpers *)

Lemma remove_appended (l : list string) (f : string) :
  ~ In f l -> filter (fun x => negb (String.eqb x f)) (l ++ [f]) = l.
Proof.
  intros H. rewrite filter_app. cbn. rewrite String.eqb_refl. cbn.
  rewrite app_nil_r. apply filter_all_true.
  intros x Hx. apply negb_true_iff, String.eqb_neq. congruence.
Qed.

Lemma In_remove (l : list string) (f x : string) :
  In x (filter (fun y => negb (String.eqb y f)) l) <-> In x l /\ x <> f.
Proof. now rewrite filter_In, negb_true_iff, String.eqb_neq. Qed.

(** X1: [removeFilter f] drops every occurrence of [f] and nothing else: the
    other selected values stay, in their order. *)
Theorem removeFilter_selection (f : string) (st : AppState) :
  ~ In f (selectedFilters (removeFilter f st))
  /\ (forall x, In x (selectedFilters (removeFilter f st))
                <-> In x (selectedFilters st) /\ x <> f)
  /\ Subsequence (selectedFilters (removeFilter f st)) (selectedFilters st).
Proof.
  cbn. split; [|split].
  - rewrite In_remove. tauto.
  - intros x. apply In_remove.
  - apply filter_Subsequence.
Qed.

(** X2: selecting a value that was not selected and removing it again gives
    back the state one started from. *)
Theorem addFilter_removeFilter_roundtrip (f : string) (st : AppState) :
  ~ In f (selectedFilters st) -> removeFilter f (addFilter f st) = st.
Proof.
  intros H. unfold addFilter.
  rewrite (proj2 (arrayIncludes_false _ _) H). cbn.
  unfold removeFilter, setSelectedFilters. cbn.
  rewrite (remove_appended _ _ H). now destruct st.
Qed.

Lemma addFilter_removeFilter_roundtrip_witness :
  removeFilter "Seed"
    (addFilter "Seed" (mkState MOCK_JOBS "ai" "a" ["Remote"; "React"]))
  = mkState MOCK_JOBS "ai" "a" ["Remote"; "React"].
Proof.
  apply addFilter_removeFilter_roundtrip. cbn.
  intros [H|[H|[]]]; discriminate H.
Defined.

(** X3: re-selecting a value moves it to the end of the selection: after
    [removeFilter f] and [addFilter f] the selection is the old one without
    [f], followed by [f]. *)
Theorem removeFilter_addFilter_moves_last (f : string) (st : AppState) :
  selectedFilters (addFilter f (removeFilter f st))
  = (filter (fun x => negb (String.eqb x f)) (selectedFilters st) ++ [f])%list
  /\ In f (selectedFilters (addFilter f st)).
Proof.
  split.
  - unfold addFilter.
    assert (E : arrayIncludes (selectedFilters (removeFilter f st)) f = false).
    { apply arrayIncludes_false. cbn. rewrite In_remove. tauto. }
    rewrite E. reflexivity.
  - unfold addFilter.
    destruct (arrayIncludes (selectedFilters st) f) eqn:E; cbn.
    + now apply arrayIncludes_spec.
    + apply in_or_app. right. now left.
Qed.

Lemma keepJob_fewer_filters (term : string) (F G : list string) (job : Job) :
  (forall f, In f G -> In f F) ->
  keepJob term F job = true -> keepJob term G job = true.
Proof.
  intros H. rewrite !keepJob_spec, !andb_true_iff, !forallb_forall.
  intros [Hs Hf]. split; auto.
Qed.

(** X4: removing a filter value never hides a job: the list shown before is
    a subsequence of the list shown after. *)
Theorem removeFilter_widens (f : string) (st : AppState) :
  Subsequence (visibleJobs st) (visibleJobs (removeFilter f st)).
Proof.
  apply filter_stronger_Subsequence. intros job.
  apply keepJob_fewer_filters. intros x Hx.
  now apply In_remove in Hx.
Qed.

(** X5: the engine reads the selection as a set: two selections with the
    same members, in any order and with any repetition, give the same
    result. *)
Theorem filteredJobs_selection_as_set
    (J : list Job) (t : string) (F G : list string) :
  (forall f, In f F <-> In f G) -> filteredJobs J t F = filteredJobs J t G.
Proof.
  intros H. apply filter_ext. intros job.
  apply Bool.eq_iff_eq_true. split; apply keepJob_fewer_filters;
    intros f; apply H.
Qed.

Lemma filteredJobs_selection_as_set_witness :
  filteredJobs MOCK_JOBS "e" ["Zurich"; "React"; "Seed"]
  = filteredJobs MOCK_JOBS "e" ["Seed"; "Zurich"; "Seed"; "React"].
Proof.
  apply filteredJobs_selection_as_set. intros f. cbn. tauto.
Defined.

(** X6: [clearFilters] resets the raw term only; the list on screen is still
    filtered by the debounced term until the timer of [useDebounced] fires,
    and from then on it is the whole job list. *)
Theorem clearFilters_then_debounce (st : AppState) :
  visibleJobs (clearFilters st)
  = filteredJobs (jobs st) (debouncedSearch st) []
  /\ visibleJobs (commitDebounced (clearFilters st)) = jobs st.
Proof.
  split; [reflexivity|].
  unfold visibleJobs, filteredJobs. cbn. now apply filter_all_true.
Qed.

Lemma jobsLoaded_nonempty (data : option (list Job)) (st : AppState) :
  jobs (jobsLoaded data st) <> [].
Proof. destruct data as [[|j js]|]; discriminate. Qed.

Lemma step_jobs (st : AppState) (e : Event) :
  jobs st <> [] -> jobs (step st e) <> [].
Proof.
  intros H. destruct e as [f|f| | | |data]; cbn; try assumption.
  - unfold addFilter. now destruct (negb (arrayIncludes (selectedFilters st) f)).
  - apply jobsLoaded_nonempty.
Qed.

(** X7: what [loadJobs] stores is never the empty list (an empty answer, an
    answer that is no array and a failed request all store the fallback
    list), and no later event empties the job list again. *)
Theorem jobs_never_empty_once_loaded
    (st : AppState) (data : option (list Job)) (events : list Event) :
  jobs (run (jobsLoaded data st) events) <> []
  /\ jobs (jobsLoaded (Some []) st) = MOCK_JOBS
  /\ jobs (jobsLoaded None st) = MOCK_JOBS.
Proof.
  split; [|split; reflexivity].
  unfold run.
  assert (H : jobs (jobsLoaded data st) <> []) by apply jobsLoaded_nonempty.
  revert H. generalize (jobsLoaded data st). clear st data.
  induction events as [|e events IH]; intros st H; cbn; [assumption|].
  apply IH. now apply step_jobs.
Qed.

Lemma isSubstringOf_trans (a b c : string) :
  isSubstringOf a b -> isSubstringOf b c -> isSubstringOf a c.
Proof.
  intros [p1 [q1 ->]] [p2 [q2 ->]].
  exists (p2 ++ p1), (q1 ++ q2).
  induction p2 as [|x p2 IH]; cbn.
  - clear. induction p1 as [|x p1 IH]; cbn.
    + clear. induction a as [|x a IH]; cbn; [reflexivity|]. now rewrite IH.
    + now rewrite IH.
  - now rewrite IH.
Qed.

Lemma includes_shorter (s t1 t2 : string) :
  isSubstringOf t1 t2 -> includes s t2 = true -> includes s t1 = true.
Proof.
  rewrite !includes_spec. intros H12 H2. exact (isSubstringOf_trans _ _ _ H12 H2).
Qed.

Lemma isSubstringOf_empty (t : string) : isSubstringOf t "" -> t = "".
Proof.
  intros [pre [post H]]. destruct pre; [|discriminate].
  destruct t; [reflexivity | discriminate].
Qed.

Lemma matchesSearch_shorter (t1 t2 : string) (job : Job) :
  isSubstringOf t1 t2 ->
  matchesSearch t2 job = true -> matchesSearch t1 job = true.
Proof.
  intros H. unfold matchesSearch. rewrite !orb_true_iff.
  intros [[[He|Ht]|Hc]|Hg].
  - apply isEmpty_spec in He. subst t2.
    rewrite (isSubstringOf_empty _ H). auto.
  - left; left; right. destruct (title job); [|discriminate].
    cbn in *. eauto using includes_shorter.
  - left; right. destruct (company job); [|discriminate].
    cbn in *. eauto using includes_shorter.
  - right. destruct (tags job) as [ts|]; [|discriminate]. cbn in *.
    apply existsb_exists in Hg. destruct Hg as [tag [Hin Htag]].
    apply existsb_exists. exists tag. eauto using includes_shorter.
Qed.

(** X8: typing more narrows the result: when the normalised form of one term
    occurs inside the normalised form of another, every job the longer term
    finds is found by the shorter one, in the same order. *)
Theorem filteredJobs_longer_term_narrows
    (J : list Job) (t1 t2 : string) (F : list string) :
  isSubstringOf (toLowerCase (trim t1)) (toLowerCase (trim t2)) ->
  Subsequence (filteredJobs J t2 F) (filteredJobs J t1 F).
Proof.
  intros H. apply filter_stronger_Subsequence. intros job.
  rewrite !keepJob_spec, !andb_true_iff. intros [Hs Hf].
  split; [|assumption]. exact (matchesSearch_shorter _ _ _ H Hs).
Qed.

Lemma filteredJobs_longer_term_narrows_witness :
  Subsequence (filteredJobs MOCK_JOBS " Front" []) (filteredJobs MOCK_JOBS "RO" []).
Proof.
  apply filteredJobs_longer_term_narrows.
  exists "f", "nt". reflexivity.
Defined.

(** ** The debounce timer *)

Section UseDebouncedFacts.

Import UseDebounced.

Lemma reachable_settled_or_pending (h : Hook) :
  reachable h -> settled_or_pending h.
Proof.
  induction 1 as [value0 delay0|h a _ IH].
  - cbn. split; [reflexivity | lia].
  - destruct a as [value' delay'|ms]; cbn.
    + unfold render.
      destruct (String.eqb value' (value h) && Nat.eqb delay' (delay h));
        [assumption|].
      cbn. split; [reflexivity | lia].
    + unfold elapse, settled_or_pending in *.
      destruct (timer h) as [[s due]|] eqn:Et; [|now rewrite Et].
      destruct IH as [-> Hdue].
      destruct (Nat.leb due ms) eqn:E; cbn; [reflexivity|].
      split; [reflexivity | lia].
Qed.

(** X9: whatever renders and waits came before, once the delay passes
    without a new render the hook returns the latest value, no timer is left
    pending, and further waiting changes nothing. *)
Theorem useDebounced_settles (h : Hook) (ms more : nat) :
  reachable h -> delay h <= ms ->
  v (elapse ms h) = value h
  /\ timer (elapse ms h) = None
  /\ elapse more (elapse ms h) = elapse ms h.
Proof.
  intros Hr Hms. apply reachable_settled_or_pending in Hr.
  unfold settled_or_pending, elapse in *.
  destruct (timer h) as [[s due]|] eqn:E.
  - destruct Hr as [-> Hdue].
    assert (Hfire : Nat.leb due ms = true) by (apply Nat.leb_le; lia).
    rewrite Hfire. cbn. repeat split.
  - rewrite E. repeat split; assumption.
Qed.

Lemma useDebounced_settles_witness :
  v (elapse 300 (render "re" 300 (elapse 120 (render "r" 300 (mount "" 300)))))
  = "re".
Proof.
  apply (useDebounced_settles
           (render "re" 300 (elapse 120 (render "r" 300 (mount "" 300))))
           300 0).
  - apply (reachable_act _ (Render "re" 300)).
    apply (reachable_act _ (Elapse 120)).
    apply (reachable_act _ (Render "r" 300)).
    apply reachable_mount.
  - cbn. lia.
Defined.

Lemma typeBurst_step (s : string) (ms : nat) (h : Hook) :
  s <> value h -> ms < delay h ->
  let h' := elapse ms (render s (delay h) h) in
  v h' = v h /\ value h' = s /\ delay h' = delay h
  /\ timer h' = Some (s, delay h - ms).
Proof.
  intros Hs Hms. unfold render.
  destruct (String.eqb s (value h)) eqn:E;
    [apply String.eqb_eq in E; contradiction|].
  cbn. unfold elapse. cbn.
  assert (Hfire : Nat.leb (delay h) ms = false) by (apply Nat.leb_gt; lia).
  rewrite Hfire. cbn. repeat split.
Qed.

(** X10: of a burst of inputs that each change the value and follow each
    other in less than the delay, none reaches the returned value while the
    burst lasts; after the burst the hook holds the last input, and returns
    it once a full delay has passed. *)
Theorem useDebounced_burst (keys : list (string * nat)) (h : Hook) :
  changingWithin (delay h) (value h) keys ->
  v (typeBurst keys h) = v h
  /\ value (typeBurst keys h) = lastValue (value h) keys
  /\ (keys <> [] ->
      v (elapse (delay h) (typeBurst keys h)) = lastValue (value h) keys).
Proof.
  revert h. induction keys as [|[s ms] keys IH]; intros h H.
  - cbn. repeat split. intros Hne. contradiction.
  - cbn in H. destruct H as [Hs [Hms Hrest]].
    destruct (typeBurst_step s ms h Hs Hms) as [Hv [Hval [Hdel Htimer]]].
    cbn [typeBurst lastValue].
    set (h' := elapse ms (render s (delay h) h)) in *.
    rewrite <- Hval, <- Hdel in Hrest.
    destruct (IH h' Hrest) as [IHv [IHval IHlast]].
    rewrite IHv, IHval, Hv, Hval. repeat split.
    intros _. destruct keys as [|k keys].
    + cbn. unfold elapse. rewrite Htimer.
      assert (Hfire : Nat.leb (delay h - ms) (delay h) = true)
        by (apply Nat.leb_le; lia).
      now rewrite Hfire.
    + rewrite <- Hdel, <- Hval. apply IHlast. discriminate.
Qed.

Lemma useDebounced_burst_witness :
  v (typeBurst [("r", 100); ("re", 120); ("rea", 50)] (mount "" 300)) = ""
  /\ v (elapse 300 (typeBurst [("r", 100); ("re", 120); ("rea", 50)]
                              (mount "" 300))) = "rea".
Proof.
  assert (H : changingWithin (delay (mount "" 300)) (value (mount "" 300))
                [("r", 100); ("re", 120); ("rea", 50)]).
  { cbn. repeat split; try lia; discriminate. }
  destruct (useDebounced_burst _ _ H) as [Hv [_ Hlast]].
  split; [exact Hv|]. apply Hlast. discriminate.
Defined.

End UseDebouncedFacts.

(** ** Notifications *)

Section NotificationFacts.

Import Notifications.

(** X11: [markNotificationRead i] keeps the number, the order, the ids and
    the texts of the notifications, and sets [read] on exactly those with id
    [i]: a notification is read afterwards when it was read before or has
    that id. *)
Theorem markNotificationRead_spec (i : nat) (prev : list Notification) :
  map (fun n => (id n, message n, time n)) (markNotificationRead i prev)
  = map (fun n => (id n, message n, time n)) prev
  /\ map read (markNotificationRead i prev)
     = map (fun n => read n || Nat.eqb (id n) i) prev
  /\ List.length (markNotificationRead i prev) = List.length prev.
Proof.
  unfold markNotificationRead. split; [|split].
  - rewrite map_map. apply map_ext. intros n.
    now destruct (Nat.eqb (id n) i).
  - rewrite map_map. apply map_ext. intros n.
    destruct (Nat.eqb (id n) i); cbn;
      [now rewrite orb_true_r | now rewrite orb_false_r].
  - apply length_map.
Qed.

(** X12: marking is idempotent, marks for two ids commute, and it never
    raises the number of unread notifications. *)
Theorem markNotificationRead_algebra (i j : nat) (prev : list Notification) :
  markNotificationRead i (markNotificationRead i prev)
  = markNotificationRead i prev
  /\ markNotificationRead i (markNotificationRead j prev)
     = markNotificationRead j (markNotificationRead i prev)
  /\ List.length (filter (fun n => negb (read n)) (markNotificationRead i prev))
     <= List.length (filter (fun n => negb (read n)) prev).
Proof.
  unfold markNotificationRead. split; [|split].
  - rewrite map_map. apply map_ext. intros n.
    destruct (Nat.eqb (id n) i) eqn:E; cbn; now rewrite E.
  - rewrite !map_map. apply map_ext. intros n.
    destruct (Nat.eqb (id n) i) eqn:Ei, (Nat.eqb (id n) j) eqn:Ej; cbn;
      rewrite ?Ei, ?Ej; reflexivity.
  - induction prev as [|n prev IH]; cbn; [lia|].
    destruct (Nat.eqb (id n) i); cbn; destruct (read n); cbn; lia.
Qed.

End NotificationFacts.

(** ** The job counts per company *)

Section CompanyCountsFacts.

Import CompanyCounts.

Lemma getOwn_setOwn_same (o : counts) (k : string) (c : cell) :
  getOwn (setOwn o k c) k = Some c.
Proof.
  induction o as [|[k' c'] o IH]; cbn.
  - now rewrite String.eqb_refl.
  - destruct (String.eqb k' k) eqn:E; cbn; now rewrite E.
Qed.

Lemma getOwn_setOwn_other (o : counts) (k k0 : string) (c : cell) :
  k <> k0 -> getOwn (setOwn o k c) k0 = getOwn o k0.
Proof.
  intros Hne. induction o as [|[k' c'] o IH]; cbn.
  - now rewrite (proj2 (String.eqb_neq k k0) Hne).
  - destruct (String.eqb k' k) eqn:E; cbn.
    + apply String.eqb_eq in E. subst k'.
      now rewrite (proj2 (String.eqb_neq k k0) Hne).
    + now rewrite IH.
Qed.

Lemma getOwn_countJob_other (o : counts) (j : Job) (name : string) :
  propertyKey (company j) <> name ->
  getOwn (countJob o j) name = getOwn o name.
Proof.
  intros Hne. unfold countJob, set. cbv zeta.
  destruct (String.eqb (propertyKey (company j)) "__proto__");
    [reflexivity | now apply getOwn_setOwn_other].
Qed.

Lemma inherited_proto (k : string) :
  inherited k = false -> String.eqb k "__proto__" = false.
Proof.
  intros H. destruct (String.eqb k "__proto__") eqn:E; [|reflexivity].
  apply String.eqb_eq in E. subst k. discriminate H.
Qed.

Lemma numberAt_countJob (o : counts) (j : Job) (name : string) (n : nat) :
  inherited name = false -> numberAt o name n ->
  numberAt (countJob o j) name
    (if String.eqb (propertyKey (company j)) name then S n else n).
Proof.
  intros Hinh Hn.
  destruct (String.eqb (propertyKey (company j)) name) eqn:E.
  - apply String.eqb_eq in E. unfold countJob, set, get. cbv zeta.
    rewrite E, (inherited_proto _ Hinh), Hinh. cbn [numberAt].
    rewrite getOwn_setOwn_same.
    destruct n as [|n]; cbn in Hn; rewrite Hn; cbn; [reflexivity|].
    do 2 f_equal. lia.
  - apply String.eqb_neq in E.
    destruct n; cbn in *; now rewrite getOwn_countJob_other.
Qed.

Lemma numberAt_fold (jobs : list Job) (o : counts) (name : string) (n : nat) :
  inherited name = false -> numberAt o name n ->
  numberAt (fold_left countJob jobs o) name (n + jobsOfCompany jobs name).
Proof.
  intros Hinh. revert o n.
  induction jobs as [|j jobs IH]; intros o n Hn; cbn.
  - now rewrite Nat.add_0_r.
  - unfold jobsOfCompany in *. cbn [filter].
    pose proof (numberAt_countJob o j name n Hinh Hn) as Hstep.
    destruct (String.eqb (propertyKey (company j)) name).
    + apply IH in Hstep. cbn [List.length].
      now replace (n + S (List.length (filter
                (fun j0 => String.eqb (propertyKey (company j0)) name) jobs)))
        with (S n + List.length (filter
                (fun j0 => String.eqb (propertyKey (company j0)) name) jobs))
        by lia.
    + now apply IH.
Qed.

(** X13: for a name that is no property name of [Object.prototype], the
    number shown for a company is the number of jobs whose company is that
    name (a job without company counts for the name "undefined"). *)
Theorem companyJobCounts_correct (jobs : list Job) (name : string) :
  inherited name = false ->
  shownCount (companyJobCounts jobs) name
  = ShownNumber (jobsOfCompany jobs name).
Proof.
  intros Hinh.
  pose proof (numberAt_fold jobs [] name 0 Hinh eq_refl) as H.
  cbn [Nat.add] in H. unfold shownCount, get, companyJobCounts.
  destruct (jobsOfCompany jobs name) as [|n]; cbn in H; rewrite H.
  - now rewrite Hinh.
  - reflexivity.
Qed.

Lemma companyJobCounts_correct_witness :
  shownCount (companyJobCounts (MOCK_JOBS ++ MOCK_JOBS)) "Designly"
  = ShownNumber 2.
Proof.
  apply (companyJobCounts_correct (MOCK_JOBS ++ MOCK_JOBS) "Designly").
  reflexivity.
Defined.

Lemma notNumber_countJob (o : counts) (j : Job) (name : string) :
  inherited name = true ->
  (forall n, getOwn o name <> Some (Num n)) ->
  forall n, getOwn (countJob o j) name <> Some (Num n).
Proof.
  intros Hinh Ho n.
  destruct (String.eqb (propertyKey (company j)) name) eqn:E.
  - apply String.eqb_eq in E. unfold countJob, set, get. cbv zeta.
    rewrite E, Hinh.
    destruct (String.eqb name "__proto__"); [apply Ho|].
    rewrite getOwn_setOwn_same.
    destruct (getOwn o name) as [[m|]|] eqn:Eo; cbn; try discriminate.
    now destruct (Ho m).
  - apply String.eqb_neq in E. rewrite getOwn_countJob_other; auto.
Qed.

(** X14: for a name that [Object.prototype] has ("constructor", "toString",
    ...), what is shown is never a number, whatever the jobs are. *)
Theorem companyJobCounts_inherited_name (jobs : list Job) (name : string) :
  inherited name = true ->
  forall n, shownCount (companyJobCounts jobs) name <> ShownNumber n.
Proof.
  intros Hinh n.
  assert (H : forall m, getOwn (companyJobCounts jobs) name <> Some (Num m)).
  { unfold companyJobCounts.
    assert (H0 : forall m, getOwn [] name <> Some (Num m)) by discriminate.
    revert H0. generalize (@nil (string * cell)).
    induction jobs as [|j jobs IH]; intros o Ho; cbn; [assumption|].
    apply IH. now apply notNumber_countJob. }
  unfold shownCount, get.
  destruct (getOwn (companyJobCounts jobs) name) as [[m|]|] eqn:E.
  - now destruct (H m).
  - discriminate.
  - rewrite Hinh. discriminate.
Qed.

Lemma companyJobCounts_inherited_name_witness :
  inherited "constructor" = true
  /\ shownCount
       (companyJobCounts
          [mkJob "j" (Some "Engineer") (Some "constructor") None None None None])
       "constructor"
     <> ShownNumber 1.
Proof.
  split; [reflexivity|].
  apply companyJobCounts_inherited_name. reflexivity.
Defined.

End CompanyCountsFacts.

(** ** From a company card to the job list *)

Lemma toLowerCase_app (a b : string) :
  toLowerCase (a ++ b) = toLowerCase a ++ toLowerCase b.
Proof. induction a as [|c a IH]; cbn; [reflexivity | now rewrite IH]. Qed.

Lemma toLowerCase_isSubstringOf (a b : string) :
  isSubstringOf a b -> isSubstringOf (toLowerCase a) (toLowerCase b).
Proof.
  intros [pre [post ->]]. exists (toLowerCase pre), (toLowerCase post).
  now rewrite !toLowerCase_app.
Qed.

Lemma trimStart_suffix (s : string) : exists pre, s = pre ++ trimStart s.
Proof.
  induction s as [|c s [pre IH]]; cbn.
  - now exists "".
  - destruct (isWhiteSpace c).
    + exists (String c pre). cbn. now rewrite <- IH.
    + now exists "".
Qed.

Lemma trimEnd_prefix (s : string) : exists post, s = trimEnd s ++ post.
Proof.
  induction s as [|c s [post IH]]; cbn.
  - now exists "".
  - destruct (isWhiteSpace c && isEmpty (trimEnd s)).
    + now exists (String c s).
    + exists post. cbn. now rewrite <- IH.
Qed.

Lemma trim_isSubstringOf (s : string) : isSubstringOf (trim s) s.
Proof.
  unfold trim. destruct (trimStart_suffix s) as [pre Hpre].
  destruct (trimEnd_prefix (trimStart s)) as [post Hpost].
  exists pre, post. now rewrite <- Hpost.
Qed.

Lemma matchesSearch_own_company (name : string) (job : Job) :
  company job = Some name ->
  matchesSearch (toLowerCase (trim name)) job = true.
Proof.
  intros H. unfold matchesSearch. rewrite H. cbn.
  assert (E : includes (toLowerCase name) (toLowerCase (trim name)) = true).
  { apply includes_spec, toLowerCase_isSubstringOf, trim_isSubstringOf. }
  rewrite E. now rewrite !orb_true_r.
Qed.

(** X15: the button "View Jobs (n)" of a company card puts the company's
    name in the search box.  With no filter selected, and for a name that is
    neither "undefined" nor a property name of [Object.prototype], the list
    shown once the debounce timer has fired has at least the [n] jobs that
    the button counted. *)
Theorem view_jobs_shows_counted_jobs (st : AppState) (name : string) :
  CompanyCounts.inherited name = false ->
  name <> "undefined" ->
  selectedFilters st = [] ->
  exists n,
    CompanyCounts.shownCount (CompanyCounts.companyJobCounts (jobs st)) name
    = CompanyCounts.ShownNumber n
    /\ n <= List.length (visibleJobs (commitDebounced (setSearchTerm name st))).
Proof.
  intros Hinh Hname Hsel.
  exists (CompanyCounts.jobsOfCompany (jobs st) name). split.
  - pose proof (numberAt_fold (jobs st) [] name 0 Hinh eq_refl) as H.
    cbn [Nat.add] in H.
    unfold CompanyCounts.shownCount, CompanyCounts.get,
      CompanyCounts.companyJobCounts.
    destruct (CompanyCounts.jobsOfCompany (jobs st) name) as [|n];
      cbn in H; rewrite H; [now rewrite Hinh | reflexivity].
  - unfold visibleJobs. cbn. rewrite Hsel.
    apply Subsequence_length, filter_stronger_Subsequence.
    intros job Hjob. apply String.eqb_eq in Hjob.
    rewrite keepJob_spec, andb_true_iff. split; [|reflexivity].
    apply matchesSearch_own_company.
    destruct (company job) as [s|]; cbn in Hjob; congruence.
Qed.

Lemma view_jobs_shows_counted_jobs_witness :
  exists n,
    CompanyCounts.shownCount
      (CompanyCounts.companyJobCounts MOCK_JOBS) "AiSwiss"
    = CompanyCounts.ShownNumber n
    /\ n <= List.length
              (visibleJobs
                 (commitDebounced
                    (setSearchTerm "AiSwiss" (mkState MOCK_JOBS "x" "x" [])))).
Proof.
  apply (view_jobs_shows_counted_jobs (mkState MOCK_JOBS "x" "x" []) "AiSwiss");
    [reflexivity | discriminate | reflexivity].
Defined.

(** ** Saved jobs and applications *)

Section UserDataFacts.

Import UserData.

Lemma arrayIncludes_remove (l : list string) (j i : string) :
  arrayIncludes (filter (fun x => negb (String.eqb x j)) l) i
  = arrayIncludes l i && negb (String.eqb i j).
Proof.
  apply Bool.eq_iff_eq_true.
  rewrite andb_true_iff, !arrayIncludes_spec, In_remove, negb_true_iff,
    String.eqb_neq.
  tauto.
Qed.

Lemma arrayIncludes_snoc (l : list string) (j i : string) :
  arrayIncludes (l ++ [j]) i = arrayIncludes l i || String.eqb j i.
Proof.
  unfold arrayIncludes. rewrite existsb_app. cbn. now rewrite orb_false_r.
Qed.

Lemma toggleSavedJob_signed_in (j : string) (apiOk : bool) (st : State) :
  isLoggedIn st = true ->
  toggleSavedJob j apiOk st
  = storeSavedJobs
      (if isSaved st j
       then filter (fun i => negb (String.eqb i j)) (savedJobs st)
       else (savedJobs st ++ [j])%list) st.
Proof.
  intros H. unfold toggleSavedJob. rewrite H. cbn.
  now destruct (isSaved st j), apiOk.
Qed.

(** X16: for a signed-in user [toggleSavedJob j] flips whether [j] is saved
    and leaves every other job as it was, whether the request to the server
    succeeds or fails; the new list is also the one stored in
    [localStorage]. *)
Theorem toggleSavedJob_flips (j : string) (apiOk : bool) (st : State) :
  isLoggedIn st = true ->
  isSaved (toggleSavedJob j apiOk st) j = negb (isSaved st j)
  /\ (forall i, i <> j -> isSaved (toggleSavedJob j apiOk st) i = isSaved st i)
  /\ storedSavedJobs (toggleSavedJob j apiOk st)
     = Some (savedJobs (toggleSavedJob j apiOk st))
  /\ toggleSavedJob j apiOk st = toggleSavedJob j (negb apiOk) st.
Proof.
  intros H. rewrite !(toggleSavedJob_signed_in _ _ _ H).
  unfold isSaved, storeSavedJobs. cbn [savedJobs storedSavedJobs].
  destruct (arrayIncludes (savedJobs st) j) eqn:E; repeat split.
  - rewrite arrayIncludes_remove, String.eqb_refl. cbn. apply andb_false_r.
  - intros i Hi. rewrite arrayIncludes_remove.
    rewrite (proj2 (String.eqb_neq i j) Hi). cbn. apply andb_true_r.
  - rewrite arrayIncludes_snoc, String.eqb_refl. apply orb_true_r.
  - intros i Hi. rewrite arrayIncludes_snoc.
    assert (Hji : String.eqb j i = false) by (apply String.eqb_neq; congruence).
    rewrite Hji. apply orb_false_r.
Qed.

Lemma toggleSavedJob_flips_witness :
  isSaved
    (toggleSavedJob "job-2" false
       (mkUserData true ["job-1"; "job-2"; "job-2"] [] [] false None None))
    "job-2" = false.
Proof.
  apply (proj1 (toggleSavedJob_flips "job-2" false
                  (mkUserData true ["job-1"; "job-2"; "job-2"] [] [] false
                     None None) eq_refl)).
Defined.

(** X17: saving a job that was not saved and unsaving it again gives back
    the list of saved jobs one started from. *)
Theorem toggleSavedJob_twice (j : string) (ok1 ok2 : bool) (st : State) :
  isLoggedIn st = true -> isSaved st j = false ->
  savedJobs (toggleSavedJob j ok2 (toggleSavedJob j ok1 st)) = savedJobs st.
Proof.
  intros Hin Hsaved.
  assert (Hin' : isLoggedIn (toggleSavedJob j ok1 st) = true).
  { now rewrite (toggleSavedJob_signed_in _ _ _ Hin). }
  rewrite (toggleSavedJob_signed_in _ _ _ Hin').
  rewrite (toggleSavedJob_signed_in _ _ _ Hin), Hsaved.
  unfold isSaved, storeSavedJobs. cbn [savedJobs].
  rewrite arrayIncludes_snoc, String.eqb_refl, orb_true_r.
  apply remove_appended. now apply arrayIncludes_false.
Qed.

Lemma toggleSavedJob_twice_witness :
  savedJobs
    (toggleSavedJob "job-3" true
       (toggleSavedJob "job-3" false
          (mkUserData true ["job-1"] [] [] false None None)))
  = ["job-1"].
Proof.
  apply (toggleSavedJob_twice "job-3" false true
           (mkUserData true ["job-1"] [] [] false None None));
    reflexivity.
Defined.

Lemma hasApplied_snoc (st : State) (a : Application) (j : string) :
  existsb (fun x => String.eqb (jobId x) j) (applications st ++ [a])
  = hasApplied st j || String.eqb (jobId a) j.
Proof.
  unfold hasApplied. rewrite existsb_app. cbn. now rewrite orb_false_r.
Qed.

(** X18: a signed-in user applies to a job not yet applied to while no
    request reaches the server: exactly one pending application for that
    job is appended, the list of saved jobs is replaced by the one stored in
    [localStorage], and applying to the same job again, whatever the server
    then answers, changes nothing. *)
Theorem handleApply_offline (j newId now : string) (st : State) :
  isLoggedIn st = true -> hasApplied st j = false ->
  let st' := handleApply j newId now false None None st in
  applications st'
  = (applications st ++ [mkApplication newId j "pending" now])%list
  /\ storedApplications st' = Some (applications st')
  /\ savedJobs st' = readStored (storedSavedJobs st)
  /\ hasApplied st' j = true
  /\ (forall newId' now' apiOk savedJobsData appsData,
        handleApply j newId' now' apiOk savedJobsData appsData st' = st').
Proof.
  intros Hin Happlied st'.
  assert (E : st' = loadUserData None None
                      (storeApplications
                         (applications st
                            ++ [mkApplication newId j "pending" now]) st)).
  { unfold st', handleApply. now rewrite Hin, Happlied. }
  assert (Hj : hasApplied st' j = true).
  { rewrite E. unfold hasApplied at 1. cbn.
    rewrite hasApplied_snoc. cbn. rewrite String.eqb_refl. apply orb_true_r. }
  repeat split; try (rewrite E; reflexivity); [exact Hj|].
  intros newId' now' apiOk savedJobsData appsData.
  unfold handleApply. rewrite Hj.
  assert (Hin' : isLoggedIn st' = true) by (rewrite E; exact Hin).
  now rewrite Hin'.
Qed.

Lemma handleApply_offline_witness :
  applications
    (handleApply "job-2" "app-1" "2024-01-01T00:00:00.000Z" false None None
       (mkUserData true ["job-1"] [] [] false None None))
  = [mkApplication "app-1" "job-2" "pending" "2024-01-01T00:00:00.000Z"]
  /\ savedJobs
       (handleApply "job-2" "app-1" "2024-01-01T00:00:00.000Z" false None None
          (mkUserData true ["job-1"] [] [] false None None))
     = [].
Proof.
  destruct (handleApply_offline "job-2" "app-1" "2024-01-01T00:00:00.000Z"
              (mkUserData true ["job-1"] [] [] false None None)
              eq_refl eq_refl) as [Happs [_ [Hsaved _]]].
  split; [exact Happs | exact Hsaved].
Defined.

(** X19: [handleLogout] empties the lists in memory but not their copies in
    [localStorage]: when the server cannot be reached at the next sign-in,
    [loadUserData] brings back the saved jobs as the last toggle left them. *)
Theorem saved_jobs_survive_logout (j : string) (apiOk : bool)
    (appsData : option (list Application)) (st : State) :
  isLoggedIn st = true ->
  savedJobs (handleLogout (toggleSavedJob j apiOk st)) = []
  /\ savedJobs (loadUserData None appsData
                  (handleLogout (toggleSavedJob j apiOk st)))
     = savedJobs (toggleSavedJob j apiOk st).
Proof.
  intros H. split; [reflexivity|].
  now rewrite (toggleSavedJob_signed_in _ _ _ H).
Qed.

Lemma saved_jobs_survive_logout_witness :
  savedJobs
    (loadUserData None None
       (handleLogout
          (toggleSavedJob "job-3" false
             (mkUserData true ["job-1"] [] [] false None None))))
  = ["job-1"; "job-3"].
Proof.
  apply (proj2 (saved_jobs_survive_logout "job-3" false None
                  (mkUserData true ["job-1"] [] [] false None None) eq_refl)).
Defined.

End UserDataFacts.

(** X20: for a signed-in user, after [toggleSavedJob] on the id of a job the
    saved-jobs view lists that job exactly when it was not saved before, and
    lists any job with another id exactly when it did before. *)
Theorem savedList_after_toggle (J : list Job) (job : Job) (j : string)
    (apiOk : bool) (st : UserData.State) :
  UserData.isLoggedIn st = true ->
  (In job (savedList J (UserData.toggleSavedJob j apiOk st))
   <-> In job J
       /\ (if String.eqb (id job) j then UserData.isSaved st j = false
           else UserData.isSaved st (id job) = true)).
Proof.
  intros H. unfold savedList. rewrite filter_In.
  rewrite (toggleSavedJob_signed_in _ _ _ H).
  unfold UserData.isSaved, UserData.storeSavedJobs. cbn [UserData.savedJobs].
  destruct (String.eqb (id job) j) eqn:E.
  - apply String.eqb_eq in E. rewrite E.
    destruct (arrayIncludes (UserData.savedJobs st) j) eqn:Es.
    + rewrite arrayIncludes_remove, String.eqb_refl, andb_false_r.
      intuition discriminate.
    + rewrite arrayIncludes_snoc, String.eqb_refl, orb_true_r. tauto.
  - destruct (arrayIncludes (UserData.savedJobs st) j) eqn:Es.
    + rewrite arrayIncludes_remove, E. cbn. now rewrite andb_true_r.
    + rewrite arrayIncludes_snoc.
      assert (Hji : String.eqb j (id job) = false).
      { apply String.eqb_neq. apply String.eqb_neq in E. congruence. }
      rewrite Hji. now rewrite orb_false_r.
Qed.

Lemma savedList_after_toggle_witness :
  In (nth 2 MOCK_JOBS (mkJob "" None None None None None None))
     (savedList MOCK_JOBS
        (UserData.toggleSavedJob "job-3" true
           (UserData.mkUserData true ["job-1"] [] [] false None None))).
Proof.
  apply (savedList_after_toggle MOCK_JOBS
           (nth 2 MOCK_JOBS (mkJob "" None None None None None None))
           "job-3" true
           (UserData.mkUserData true ["job-1"] [] [] false None None) eq_refl).
  split; [right; right; left; reflexivity | reflexivity].
Defined.

(** ** The skills of the profile form *)

Section ProfileFacts.

Import Profile.

Lemma setAdd_In (elems : list string) (x y : string) :
  In y (setAdd elems x) <-> In y elems \/ y = x.
Proof.
  unfold setAdd. destruct (arrayIncludes elems x) eqn:E.
  - apply arrayIncludes_spec in E. split; [auto|].
    intros [H| ->]; assumption.
  - rewrite in_app_iff. cbn. intuition congruence.
Qed.

Lemma setAdd_NoDup (elems : list string) (x : string) :
  NoDup elems -> NoDup (setAdd elems x).
Proof.
  intros H. unfold setAdd. destruct (arrayIncludes elems x) eqn:E;
    [assumption|].
  apply NoDup_snoc; [assumption | now apply arrayIncludes_false].
Qed.

Lemma fold_setAdd_In (xs elems : list string) (y : string) :
  In y (fold_left setAdd xs elems) <-> In y elems \/ In y xs.
Proof.
  revert elems. induction xs as [|x xs IH]; intros elems; cbn.
  - tauto.
  - rewrite IH, setAdd_In. intuition congruence.
Qed.

Lemma fold_setAdd_NoDup (xs elems : list string) :
  NoDup elems -> NoDup (fold_left setAdd xs elems).
Proof.
  revert elems. induction xs as [|x xs IH]; intros elems H; cbn;
    [assumption|].
  apply IH. now apply setAdd_NoDup.
Qed.

Lemma fold_setAdd_distinct (xs elems : list string) :
  NoDup (elems ++ xs) -> fold_left setAdd xs elems = (elems ++ xs)%list.
Proof.
  revert elems. induction xs as [|x xs IH]; intros elems H; cbn.
  - now rewrite app_nil_r.
  - assert (Hx : ~ In x elems).
    { intros Hin. apply NoDup_remove_2 in H. apply H.
      apply in_or_app. now left. }
    unfold setAdd at 2. rewrite (proj2 (arrayIncludes_false _ _) Hx).
    rewrite IH; rewrite <- app_assoc; [reflexivity | exact H].
Qed.

(** X21: the button "Add" with a non-empty input leaves a list of skills
    without repetition whose members are the old skills and the input, and
    clears the input; when the old skills were distinct they keep their
    places, the input coming last if it is new. *)
Theorem addSkill_spec (p : ProfileEdit) :
  skillsInput p <> "" ->
  NoDup (skills (addSkill p))
  /\ (forall x, In x (skills (addSkill p))
                <-> In x (skills p) \/ x = skillsInput p)
  /\ skillsInput (addSkill p) = ""
  /\ (NoDup (skills p) ->
      skills (addSkill p)
      = if arrayIncludes (skills p) (skillsInput p) then skills p
        else (skills p ++ [skillsInput p])%list).
Proof.
  intros Hne. unfold addSkill.
  destruct (isEmpty (skillsInput p)) eqn:E;
    [apply isEmpty_spec in E; contradiction|].
  cbn [skills skillsInput]. unfold arrayFromSet. repeat split.
  - apply fold_setAdd_NoDup. constructor.
  - rewrite fold_setAdd_In, in_app_iff. cbn. intuition congruence.
  - rewrite fold_setAdd_In, in_app_iff. cbn. intuition congruence.
  - intros Hnd. rewrite fold_left_app. cbn.
    rewrite (fold_setAdd_distinct (skills p) [] Hnd). reflexivity.
Qed.

Lemma addSkill_spec_witness :
  skills (addSkill (mkProfileEdit "A" "a@b.c" "ETH" "CS" "React"
                      ["Python"; "React"; "Python"]))
  = ["Python"; "React"]
  /\ NoDup (skills (addSkill (mkProfileEdit "A" "a@b.c" "ETH" "CS" "React"
                                ["Python"; "React"; "Python"]))).
Proof.
  split; [reflexivity|].
  apply (proj1 (addSkill_spec (mkProfileEdit "A" "a@b.c" "ETH" "CS" "React"
                                 ["Python"; "React"; "Python"])
                  ltac:(discriminate))).
Defined.

(** X22: adding a new skill to a list of distinct skills and removing it
    again gives back the list of skills. *)
Theorem addSkill_removeSkill_roundtrip (p : ProfileEdit) :
  skillsInput p <> "" -> NoDup (skills p) ->
  ~ In (skillsInput p) (skills p) ->
  skills (removeSkill (skillsInput p) (addSkill p)) = skills p.
Proof.
  intros Hne Hnd Hnew. unfold addSkill.
  destruct (isEmpty (skillsInput p)) eqn:E;
    [apply isEmpty_spec in E; contradiction|].
  cbn [removeSkill skills]. unfold arrayFromSet.
  rewrite fold_setAdd_distinct by (cbn; now apply NoDup_snoc).
  cbn [app]. now apply remove_appended.
Qed.

Lemma addSkill_removeSkill_roundtrip_witness :
  skills (removeSkill "Figma"
            (addSkill (mkProfileEdit "A" "a@b.c" "ETH" "CS" "Figma"
                         ["Python"; "React"])))
  = ["Python"; "React"].
Proof.
  apply (addSkill_removeSkill_roundtrip
           (mkProfileEdit "A" "a@b.c" "ETH" "CS" "Figma" ["Python"; "React"])).
  - discriminate.
  - repeat constructor; cbn; intuition discriminate.
  - cbn. intuition discriminate.
Defined.

End ProfileFacts.

(** ** Job cards and the engine *)

(** X23: a job that carries neither tags nor a stage is shown with the
    badges "Seed", "React" and "TypeScript", but the engine does not match
    it against them: with any of these badges among the selected filters the
    job is not listed, unless its location or its type is that very word. *)
Theorem card_badges_not_matched (job : Job) (f : string) :
  tags job = None -> stage job = None ->
  In f (cardStage job :: cardTags job) ->
  location job <> Some f -> type job <> Some f ->
  cardStage job :: cardTags job = ["Seed"; "React"; "TypeScript"]
  /\ forall J t F, In f F -> ~ In job (filteredJobs J t F).
Proof.
  intros Htags Hstage Hf Hloc Htype. split.
  - unfold cardStage, cardTags. now rewrite Htags, Hstage.
  - intros J t F HF Hin.
    apply filteredJobs_In in Hin. destruct Hin as [_ [_ Hall]].
    rewrite forallb_forall in Hall. specialize (Hall f HF).
    apply matchesFilter_spec in Hall.
    destruct Hall as [H|[H|[[ts [H _]]|H]]]; congruence.
Qed.

Lemma card_badges_not_matched_witness :
  ~ In (mkJob "job-9" (Some "Data Engineer") (Some "Acme") (Some "Basel")
          (Some "Full-time") None None)
       (filteredJobs
          [mkJob "job-9" (Some "Data Engineer") (Some "Acme") (Some "Basel")
             (Some "Full-time") None None]
          "" ["React"])
  /\ In "React"
        (cardTags
           (mkJob "job-9" (Some "Data Engineer") (Some "Acme") (Some "Basel")
              (Some "Full-time") None None)).
Proof.
  split; [|left; reflexivity].
  apply (proj2 (card_badges_not_matched
                  (mkJob "job-9" (Some "Data Engineer") (Some "Acme")
                     (Some "Basel") (Some "Full-time") None None)
                  "React" eq_refl eq_refl
                  (or_intror (or_introl eq_refl))
                  ltac:(discriminate) ltac:(discriminate))).
  left. reflexivity.
Defined.

(** ** Where the engine's guards end *)

Section MalformedJobs.

Import Dynamic.

Lemma evalMatchesSearch_malformed_title (term : string) (o : object) :
  term <> "" ->
  isNullish (getProp o "title") = false ->
  (forall s, getProp o "title" <> VString s) ->
  evalMatchesSearch term o = Throw TypeError.
Proof.
  intros Hterm Hnull Hstr. unfold evalMatchesSearch.
  assert (E : isEmpty term = false).
  { destruct term; [contradiction | reflexivity]. }
  rewrite E. unfold optionalChain at 1. rewrite Hnull.
  destruct (getProp o "title") as [[| |b|s]|elems]; cbn; try reflexivity;
    try discriminate.
  now destruct (Hstr s).
Qed.

Lemma filterLoop_throws (cb : object -> completion value) (os : list object)
    (o : object) :
  In o os -> cb o = Throw TypeError -> filterLoop cb os = Throw TypeError.
Proof.
  intros Hin Hthrow. induction os as [|o' os IH]; [destruct Hin|].
  cbn. destruct Hin as [->|Hin].
  - now rewrite Hthrow.
  - destruct (cb o') as [r|[]]; cbn; [|reflexivity].
    now rewrite (IH Hin).
Qed.

(** X24: the guards of the engine cover a missing or null field, not a
    field of the wrong kind: one job in the list whose title is a boolean or
    an array makes the engine throw for every search term that is not
    blank, while with a blank term the title is never read. *)
Theorem engine_throws_on_malformed_title (os : list object) (o : object)
    (t : string) (F : list string) :
  In o os ->
  isNullish (getProp o "title") = false ->
  (forall s, getProp o "title" <> VString s) ->
  (trim t <> "" -> evalFilteredJobs os t F = Throw TypeError)
  /\ (trim t = "" -> exists r, evalMatchesSearch (toLowerCase (trim t)) o = Normal r
                               /\ toBoolean r = true).
Proof.
  intros Hin Hnull Hstr. split.
  - intros Hterm. unfold evalFilteredJobs. cbv zeta.
    apply (filterLoop_throws _ _ o Hin). unfold evalKeepJob.
    rewrite evalMatchesSearch_malformed_title; auto.
    now rewrite term_empty_iff.
  - intros ->. exists (VBool true). split; reflexivity.
Qed.

Lemma engine_throws_on_malformed_title_witness :
  evalFilteredJobs
    [toObject (mkJob "job-1" (Some "Engineer") None None None None None);
     [("id", VString "job-2"); ("title", VBool true)]]
    "eng" []
  = Throw TypeError.
Proof.
  apply (proj1 (engine_throws_on_malformed_title
                  [toObject (mkJob "job-1" (Some "Engineer") None None None
                               None None);
                   [("id", VString "job-2"); ("title", VBool true)]]
                  [("id", VString "job-2"); ("title", VBool true)]
                  "eng" []
                  (or_intror (or_introl eq_refl)) eq_refl
                  ltac:(discriminate))).
  discriminate.
Defined.

End MalformedJobs.
